(** * cat-doorbell: the beacon callback, the configuration loader and the
      log pruning, embedded from the Go sources.

    Definitions:
    - [Utf8], [Fold]: the parts of Go's [unicode/utf8], [unicode] and
      [strings] that [strings.EqualFold] runs when the callback compares a
      payload with the configured address.
    - [Clock]: [time.Time], [time.Since] and [time.Now] as the callback
      uses them on [lastDetected].
    - [Doorbell]: the closure passed to [client.Subscribe] in [run], with
      [playDoorbell]; the trace of log lines and alert calls is explicit.
    - [Mutex]: the same closure cut at its synchronisation points, run by
      several deliveries under an arbitrary schedule.
    - [Loader]: [config.FromYAML], [GetConfigByKind], [migrateToLatest].
    - [Logs]: [removeOldLogs] over a directory listing.
    - [V1alpha1]: the methods of [v1alpha1.Config]; [Assets]: package
      assets ([Open], [ReadFile], [Unpack]).
    - [Startup]: [beforeAll], [initLogger] and [loadConfig] of main;
      [Runner]: [run] with its deferred calls.
    - [Serial]: the invariant that relates a pool of callbacks to the
      callbacks run one after the other.
    - [Spec]: the words of the specification; [Sample], [Fixtures],
      [Machines]: values the statements are run on.

    Theorems: [Debounce] and [Sequence] (one delivery and deliveries in
    sequence), [LoaderFacts], [LoaderMore], [LogsFacts], [LogsMore],
    [Matcher] and [MatcherMore] (the identity test), [MutexFacts],
    [Exclusion] and [SerialFacts] (concurrent deliveries), [AssetsFacts],
    [StartupFacts] and [RunnerFacts]. *)

From Stdlib Require Import ZArith List Bool Lia String Ascii Arith Sorted DecimalString
  Permutation.
Import ListNotations.

Local Open Scope Z_scope.

(** ** Go strings are byte sequences *)

Definition byteOf (c : ascii) : Z := Z.of_N (N_of_ascii c).

Fixpoint bytes (s : string) : list Z :=
  match s with
  | EmptyString => []
  | String c rest => byteOf c :: bytes rest
  end.

Definition isByte (b : Z) : Prop := 0 <= b < 256.

(** ** unicode/utf8 *)

Module Utf8.

Definition RuneError : Z := 0xFFFD.
Definition RuneSelf : Z := 0x80.
Definition MaxRune : Z := 0x10FFFF.

Definition maskx : Z := 0x3F.
Definition mask2 : Z := 0x1F.
Definition mask3 : Z := 0x0F.
Definition mask4 : Z := 0x07.

Definition locb : Z := 0x80.
Definition hicb : Z := 0xBF.

(* The information bytes of the table [first]. *)
Definition xx : Z := 0xF1.
Definition as_ : Z := 0xF0.
Definition s1 : Z := 0x02.
Definition s2 : Z := 0x13.
Definition s3 : Z := 0x03.
Definition s4 : Z := 0x23.
Definition s5 : Z := 0x34.
Definition s6 : Z := 0x04.
Definition s7 : Z := 0x44.

(** [first[b]]: the 256-entry table of the package, written by its runs
    of equal entries. *)
Definition first (b : Z) : Z :=
  if b <? 0x80 then as_
  else if b <? 0xC2 then xx
  else if b <? 0xE0 then s1
  else if b =? 0xE0 then s2
  else if b <? 0xED then s3
  else if b =? 0xED then s4
  else if b <? 0xF0 then s3
  else if b =? 0xF0 then s5
  else if b <? 0xF4 then s6
  else if b =? 0xF4 then s7
  else xx.

(** [acceptRanges[i]] as a pair (lo, hi). *)
Definition acceptRanges (i : Z) : Z * Z :=
  if i =? 0 then (locb, hicb)
  else if i =? 1 then (0xA0, hicb)
  else if i =? 2 then (locb, 0x9F)
  else if i =? 3 then (0x90, hicb)
  else (locb, 0x8F).

Definition at_ (s : list Z) (i : nat) : Z := nth i s 0.

(** [utf8.DecodeRuneInString]: the rune at the front of [s] and its width
    in bytes; an invalid front byte gives [(RuneError, 1)]. *)
Definition DecodeRuneInString (s : list Z) : Z * nat :=
  match s with
  | [] => (RuneError, 0%nat)
  | s0 :: _ =>
      let x := first s0 in
      if as_ <=? x then
        (* mask := rune(x) << 31 >> 31: all ones exactly when x is odd *)
        (if Z.odd x then RuneError else s0, 1%nat)
      else
        let sz := Z.to_nat (Z.land x 7) in
        let accept := acceptRanges (Z.shiftr x 4) in
        if (List.length s <? sz)%nat then (RuneError, 1%nat)
        else
          let b1 := at_ s 1 in
          if (b1 <? fst accept) || (snd accept <? b1) then (RuneError, 1%nat)
          else if (sz <=? 2)%nat then
            (Z.lor (Z.shiftl (Z.land s0 mask2) 6) (Z.land b1 maskx), 2%nat)
          else
            let b2 := at_ s 2 in
            if (b2 <? locb) || (hicb <? b2) then (RuneError, 1%nat)
            else if (sz <=? 3)%nat then
              (Z.lor (Z.lor (Z.shiftl (Z.land s0 mask3) 12)
                            (Z.shiftl (Z.land b1 maskx) 6))
                     (Z.land b2 maskx), 3%nat)
            else
              let b3 := at_ s 3 in
              if (b3 <? locb) || (hicb <? b3) then (RuneError, 1%nat)
              else
                (Z.lor (Z.lor (Z.lor (Z.shiftl (Z.land s0 mask4) 18)
                                     (Z.shiftl (Z.land b1 maskx) 12))
                              (Z.shiftl (Z.land b2 maskx) 6))
                       (Z.land b3 maskx), 4%nat)
  end.

End Utf8.

(** ** strings.EqualFold and unicode.SimpleFold *)

Module Fold.
Import Utf8.

Definition chr (c : ascii) : Z := byteOf c.

(** [asciiFold[r]] for [r <= MaxASCII]: the next rune of the folding orbit.
    The orbits of k and s leave ASCII (KELVIN SIGN, LONG S). *)
Definition asciiFold (r : Z) : Z :=
  if (chr "A" <=? r) && (r <=? chr "Z") then r + 32
  else if (chr "a" <=? r) && (r <=? chr "z") then
    if r =? chr "k" then 0x212A
    else if r =? chr "s" then 0x017F
    else r - 32
  else r.

Section WithTables.

(** What [SimpleFold] answers above ASCII comes from the tables
    [caseOrbit] and [CaseRanges] of package unicode, which are data of the
    Go distribution; they are a parameter here. *)
Variable unicodeFold : Z -> Z.

Definition SimpleFold (r : Z) : Z :=
  if (r <? 0) || (MaxRune <? r) then r
  else if r <? 128 then asciiFold r
  else unicodeFold r.

(** [for r != sr && r < tr { r = unicode.SimpleFold(r) }]. An orbit of
    simple folding has at most four runes, so the loop of the Go code
    leaves within four rounds; [orbitBound] rounds are run here. *)
Definition orbitBound : nat := 8.

Fixpoint walkOrbit (rounds : nat) (r sr tr : Z) : Z :=
  match rounds with
  | O => r
  | S k =>
      if negb (r =? sr) && (r <? tr) then walkOrbit k (SimpleFold r) sr tr
      else r
  end.

(** The body of the [hasUnicode] loop once both runes are read: do [sr]
    and [tr] fold to each other? *)
Definition runesFold (sr tr : Z) : bool :=
  if tr =? sr then true
  else
    let '(sr, tr) := if tr <? sr then (tr, sr) else (sr, tr) in
    if tr <? RuneSelf then
      (chr "A" <=? sr) && (sr <=? chr "Z") && (tr =? sr + chr "a" - chr "A")
    else
      walkOrbit orbitBound (SimpleFold sr) sr tr =? tr.

(** The loop after the label [hasUnicode]: [for _, sr := range s], reading
    one rune of [t] per round. Each round takes at least one byte of [s];
    [n] counts the rounds still allowed and is [len(s)] at the call. *)
Fixpoint foldRunes (n : nat) (s t : list Z) : bool :=
  match s with
  | [] => (List.length t =? 0)%nat
  | _ :: _ =>
      match n with
      | O => false
      | S k =>
          let '(sr, size) := DecodeRuneInString s in
          match t with
          | [] => false
          | t0 :: trest =>
              let '(tr, t') :=
                if t0 <? RuneSelf then (t0, trest)
                else let '(r, size) := DecodeRuneInString t in (r, skipn size t) in
              if runesFold sr tr then foldRunes k (skipn size s) t' else false
          end
      end
  end.

(** The ASCII fast path of [EqualFold], byte by byte, which jumps to
    [hasUnicode] with the unread suffixes at the first byte >= RuneSelf. *)
Fixpoint equalFoldFrom (s t : list Z) : bool :=
  match s, t with
  | sr :: s', tr :: t' =>
      if RuneSelf <=? Z.lor sr tr then foldRunes (List.length s) s t
      else if tr =? sr then equalFoldFrom s' t'
      else
        let '(sr, tr) := if tr <? sr then (tr, sr) else (sr, tr) in
        if (chr "A" <=? sr) && (sr <=? chr "Z") && (tr =? sr + chr "a" - chr "A")
        then equalFoldFrom s' t'
        else false
  | [], [] => true
  | _, _ => false
  end.

Definition EqualFold (s t : string) : bool :=
  equalFoldFrom (bytes s) (bytes t).

End WithTables.

End Fold.

(** ** package time, as far as the callback goes *)

Module Clock.

(** [time.Duration] is an int64 count of nanoseconds. *)
Definition minDuration : Z := - 2 ^ 63.
Definition maxDuration : Z := 2 ^ 63 - 1.
Definition Nanosecond : Z := 1.
Definition Microsecond : Z := 1000 * Nanosecond.
Definition Millisecond : Z := 1000 * Microsecond.
Definition Second : Z := 1000 * Millisecond.
Definition Minute : Z := 60 * Second.

Definition isDuration (d : Z) : Prop := minDuration <= d <= maxDuration.

(** int64 arithmetic wraps. *)
Definition wrap64 (z : Z) : Z := (z + 2 ^ 63) mod 2 ^ 64 - 2 ^ 63.

(** A [time.Time]: the wall clock in nanoseconds since January 1, year 1
    (the instant of the zero [Time]) and the monotonic clock reading, in
    nanoseconds since process start, when the value carries one. *)
Record Time := mkTime { wall : Z; mono : option Z }.

(** [var lastDetected time.Time]: the zero value, no monotonic reading. *)
Definition zeroTime : Time := mkTime 0 None.

(** What the runtime's two clocks show at one instant. *)
Record Reading := mkReading { wallclock : Z; monotonic : Z }.

(** Seconds from year 1 to 1970 ([unixToInternal]), in nanoseconds. *)
Definition unixEpoch : Z :=
  (1969 * 365 + 1969 / 4 - 1969 / 100 + 1969 / 400) * 86400 * Second.

(** A reading the runtime can give: the wall clock is not before 1970 and
    the monotonic clock is a non-negative int64. *)
Definition sane (r : Reading) : Prop :=
  unixEpoch <= wallclock r /\ 0 <= monotonic r <= maxDuration.

Definition saneb (r : Reading) : bool :=
  (unixEpoch <=? wallclock r) && (0 <=? monotonic r) && (monotonic r <=? maxDuration).

(** [time.Now()] at reading [r]: wall clock and monotonic clock both. *)
Definition Now (r : Reading) : Time := mkTime (wallclock r) (Some (monotonic r)).

(** [subMono(t, u)]: the difference of two monotonic readings, saturated. *)
Definition subMono (t u : Z) : Z :=
  let d := wrap64 (t - u) in
  if (d <? 0) && (u <? t) then maxDuration
  else if (0 <? d) && (t <? u) then minDuration
  else d.

(** [t.Sub(u)]: monotonic readings when both carry one, else the wall
    clocks, and [minDuration]/[maxDuration] when the int64 difference [d]
    is not the true one ([u.Add(d).Equal(t)] fails). *)
Definition Sub (t u : Time) : Z :=
  match mono t, mono u with
  | Some a, Some b => subMono a b
  | _, _ =>
      let d := wrap64 (wall t - wall u) in
      if wall u + d =? wall t then d
      else if wall t <? wall u then minDuration
      else maxDuration
  end.

(** [time.Since(t)] when the clocks show [r]. *)
Definition Since (r : Reading) (t : Time) : Z :=
  match mono t with
  | Some m => subMono (monotonic r) m
  | None => Sub (Now r) t
  end.

End Clock.

(** ** The configuration value (package v1alpha1) *)

(** [types.TypeMeta]: package types is not among the sources; these are
    the two fields that [PopulateTypeMeta] sets and [FromYAML] reads. *)
Record TypeMeta := mkTypeMeta { APIVersion : string; Kind : string }.

Record BrokerConfig := mkBrokerConfig {
  Address : string;
  Username : string;
  Password : string
}.

Record Config := mkConfig {
  meta : TypeMeta;                (* types.TypeMeta `yaml:",inline"` *)
  Broker : BrokerConfig;
  TargetMAC : string;
  DetectionTimeout : Z            (* time.Duration *)
}.

(** ** The subscription callback of [run] *)

Module Doorbell.
Import Clock.

(** What the callback does to the outside, in order. *)
Inductive Event :=
| Debug (msg mac : string)             (* slog.Debug(msg, slog.String("mac", mac)) *)
| Info (msg mac : string)              (* slog.Info(msg, slog.String("mac", mac)) *)
| Warn (msg err : string)              (* slog.Warn(msg, slog.Any("error", err)) *)
| Notify (title message icon : string) (* beeep.Notify(title, message, icon) *)
| AssetOpen (name : string)            (* assets.Open(name) *)
| Mp3Decode                            (* mp3.Decode(f) *)
| SpeakerPlay.                         (* speaker.Play(beep.Seq(s, ...)) *)

(** What the outside answers during one delivery: the clocks at the call
    of [time.Since] and at the call of [time.Now], and the error, if any,
    of each call that can fail. *)
Record World := mkWorld {
  sinceClock : Reading;
  nowClock : Reading;
  notifyErr : option string;
  openErr : option string;
  decodeErr : option string
}.

(** [playDoorbell]: its error and what it did. *)
Definition playDoorbell (w : World) : option string * list Event :=
  match openErr w with
  | Some e => (Some ("failed to open embedded sound asset: " ++ e)%string, [AssetOpen "doorbell.mp3"])
  | None =>
      match decodeErr w with
      | Some e => (Some ("failed to decode MP3: " ++ e)%string, [AssetOpen "doorbell.mp3"; Mp3Decode])
      | None => (None, [AssetOpen "doorbell.mp3"; Mp3Decode; SpeakerPlay])
      end
  end.

Definition warnIf (msg : string) (err : option string) : list Event :=
  match err with
  | Some e => [Warn msg e]
  | None => []
  end.

Section Callback.

Variable unicodeFold : Z -> Z.
Variable conf : Config.
Variable catIconPath : string.

(** The alert of an accepted beacon: lines 245-254 of the callback. *)
Definition alert (w : World) (mac : string) : list Event :=
  let message := ("Device " ++ mac ++ " came into range")%string in
  let '(perr, played) := playDoorbell w in
  [Info "Detected target device" mac]
    ++ [Notify "Doorbell" message catIconPath]
    ++ warnIf "Failed to raise notification" (notifyErr w)
    ++ played
    ++ warnIf "Failed to play doorbell sound" perr.

(** [func(client paho.Client, msg paho.Message)]: the new [lastDetected]
    and the trace. The mutex is held from the match to the return. *)
Definition onMessage (w : World) (payload : string) (lastDetected : Time)
  : Time * list Event :=
  let mac := payload in
  let received := [Debug "Received beacon from device" mac] in
  if Fold.EqualFold unicodeFold mac (TargetMAC conf) then
    if (DetectionTimeout conf <=? Since (sinceClock w) lastDetected)%Z then
      (Now (nowClock w), received ++ alert w mac)
    else
      (lastDetected, received ++ [Debug "Ignoring beacon from device" mac])
  else
    (lastDetected, received).

(** Messages are delivered one after the other: the state is threaded and
    the traces are kept per delivery. *)
Fixpoint deliver (ds : list (World * string)) (lastDetected : Time)
  : Time * list (list Event) :=
  match ds with
  | [] => (lastDetected, [])
  | (w, payload) :: rest =>
      let '(t, evs) := onMessage w payload lastDetected in
      let '(t', more) := deliver rest t in
      (t', evs :: more)
  end.

End Callback.

(** Observers of a trace. *)
Definition isDetection (e : Event) : bool :=
  match e with
  | Info _ _ => true
  | _ => false
  end.

Definition isDispatch (e : Event) : bool :=
  match e with
  | Notify _ _ _ | AssetOpen _ | Mp3Decode | SpeakerPlay => true
  | _ => false
  end.

(** A delivery was accepted when it logged the detection. *)
Definition accepted (evs : list Event) : bool := existsb isDetection evs.
Definition dispatched (evs : list Event) : bool := existsb isDispatch evs.

Definition countAccepted (traces : list (list Event)) : nat :=
  List.length (filter accepted traces).

(** The time of a sighting: the monotonic clock when it is tested. *)
Definition stamp (d : World * string) : Z := monotonic (sinceClock (fst d)).

(** The monotonic clock when an accepted sighting is recorded. *)
Definition recorded (d : World * string) : Z := monotonic (nowClock (fst d)).

(** The branch taken by each beacon of the target after the first, when
    the clock moves between the test and the recording: the pairs are
    (tested, recorded) and [last] is the recorded time of the last
    accepted beacon. *)
Fixpoint gateFrom (cooldown last : Z) (ts : list (Z * Z)) : list bool :=
  match ts with
  | [] => []
  | (tested, rec) :: rest =>
      let ok := cooldown <=? tested - last in
      ok :: gateFrom cooldown (if ok then rec else last) rest
  end.

End Doorbell.

(** ** The callback under concurrent deliveries *)

Module Mutex.
Import Clock Doorbell.

(** Where a delivery stands in the callback. *)
Inductive PC :=
| Received     (* entered: the debug line and the EqualFold test are next *)
| WantLock     (* at lastDetectedMu.Lock() *)
| Holding      (* lock taken; the time.Since test is next *)
| Accepting    (* test passed; lastDetected = time.Now() is next *)
| Alerting     (* lastDetected written; log, Notify, playDoorbell are next *)
| Ignoring     (* test failed; the debug line is next *)
| Leaving      (* the deferred lastDetectedMu.Unlock() is next *)
| Done.

Record Thread := mkThread {
  pc : PC;
  world : World;
  payload : string;
  trace : list Event
}.

(** The variables of [run] that the callbacks share. *)
Record Shared := mkShared {
  lastDetected : Time;
  locked : bool;              (* lastDetectedMu *)
  threads : list Thread
}.

Definition critical (p : PC) : bool :=
  match p with
  | Holding | Accepting | Alerting | Ignoring | Leaving => true
  | _ => false
  end.

Definition finished (t : Thread) : bool :=
  match pc t with
  | Done => true
  | _ => false
  end.

Fixpoint update {A} (i : nat) (x : A) (l : list A) : list A :=
  match l, i with
  | [], _ => []
  | _ :: rest, O => x :: rest
  | y :: rest, S k => y :: update k x rest
  end.

Section Pool.

Variable unicodeFold : Z -> Z.
Variable conf : Config.
Variable catIconPath : string.

Definition goto (t : Thread) (p : PC) (evs : list Event) : Thread :=
  mkThread p (world t) (payload t) (trace t ++ evs).

(** One move of thread [t]: [None] when it cannot move (it waits for the
    mutex, or it has returned). *)
Definition move (st : Shared) (t : Thread) : option (Time * bool * Thread) :=
  let mac := payload t in
  match pc t with
  | Received =>
      let next := if Fold.EqualFold unicodeFold mac (TargetMAC conf)
                  then WantLock else Done in
      Some (lastDetected st, locked st,
            goto t next [Debug "Received beacon from device" mac])
  | WantLock =>
      if locked st then None
      else Some (lastDetected st, true, goto t Holding [])
  | Holding =>
      let next := if DetectionTimeout conf <=? Since (sinceClock (world t)) (lastDetected st)
                  then Accepting else Ignoring in
      Some (lastDetected st, locked st, goto t next [])
  | Accepting =>
      Some (Now (nowClock (world t)), locked st, goto t Alerting [])
  | Alerting =>
      Some (lastDetected st, locked st,
            goto t Leaving (alert catIconPath (world t) mac))
  | Ignoring =>
      Some (lastDetected st, locked st,
            goto t Leaving [Debug "Ignoring beacon from device" mac])
  | Leaving =>
      Some (lastDetected st, false, goto t Done [])
  | Done => None
  end.

(** The scheduler picks thread [i]; a thread that cannot move, or an index
    outside the pool, leaves the state as it is. *)
Definition step (i : nat) (st : Shared) : Shared :=
  match nth_error (threads st) i with
  | None => st
  | Some t =>
      match move st t with
      | None => st
      | Some (ld, lk, t') => mkShared ld lk (update i t' (threads st))
      end
  end.

Fixpoint runSchedule (sched : list nat) (st : Shared) : Shared :=
  match sched with
  | [] => st
  | i :: rest => runSchedule rest (step i st)
  end.

End Pool.

(** [run] starts with the zero [lastDetected], the mutex free, and one
    thread per delivered message. *)
Definition spawn (ds : list (World * string)) : Shared :=
  mkShared zeroTime false
    (map (fun d => mkThread Received (fst d) (snd d) []) ds).

Definition allDone (st : Shared) : bool := forallb finished (threads st).

Definition acceptedCount (st : Shared) : nat :=
  List.length (filter (fun t => accepted (trace t)) (threads st)).

(** Each thread in turn, to its return: [k] moves for every thread of a
    pool of [n]. *)
Fixpoint oneByOne (k n : nat) : list nat :=
  match n with
  | O => []
  | S m => oneByOne k m ++ repeat m k
  end.

(** Counting threads, for the invariant of the pool. *)
Definition tally {A} (p : A -> bool) (l : list A) : nat := List.length (filter p l).

Definition inCritical (t : Thread) : bool := critical (pc t).

Definition atAccepting (t : Thread) : bool :=
  match pc t with
  | Accepting => true
  | _ => false
  end.

(** A thread that has written [lastDetected]: it is about to raise the
    alert, or its trace shows that it did. *)
Definition won (t : Thread) : bool :=
  match pc t with
  | Alerting => true
  | _ => accepted (trace t)
  end.

(** Before any thread has written [lastDetected]. *)
Definition early (t : Thread) : bool :=
  match pc t with
  | Received | WantLock | Holding | Accepting => true
  | _ => false
  end.

Definition returning (t : Thread) : bool :=
  match pc t with
  | Leaving | Done => true
  | _ => false
  end.

(** Moves a thread still has before it returns, at most. *)
Definition remaining (p : PC) : nat :=
  match p with
  | Received => 6
  | WantLock => 5
  | Holding => 4
  | Accepting => 3
  | Alerting => 2
  | Ignoring => 2
  | Leaving => 1
  | Done => 0
  end.

Definition work (st : Shared) : nat :=
  list_sum (map (fun t => remaining (pc t)) (threads st)).

Section Enabled.
Variable unicodeFold : Z -> Z.
Variable conf : Config.
Variable catIconPath : string.

(** Thread [i] can move. *)
Definition enabled (i : nat) (st : Shared) : bool :=
  match nth_error (threads st) i with
  | Some t =>
      match move unicodeFold conf catIconPath st t with
      | Some _ => true
      | None => false
      end
  | None => false
  end.

End Enabled.

Section Invariant.
Variable unicodeFold : Z -> Z.
Variable conf : Config.
(** The deliveries of the pool read their clocks within less than one
    cooldown: between [from] and [from + DetectionTimeout] on the
    monotonic clock. *)
Variable from : Z.

Definition inWindow (r : Reading) : Prop :=
  sane r /\ from <= monotonic r < from + DetectionTimeout conf.

(** What holds of each thread by itself. *)
Definition sound (t : Thread) : Prop :=
  inWindow (sinceClock (world t))
  /\ inWindow (nowClock (world t))
  /\ Fold.EqualFold unicodeFold (payload t) (TargetMAC conf) = true
  /\ (returning t = false -> accepted (trace t) = false).

(** The invariant of the pool. *)
Definition Inv (st : Shared) : Prop :=
  Forall sound (threads st)
  /\ tally inCritical (threads st) = (if locked st then 1 else 0)%nat
  /\ ((lastDetected st = zeroTime /\ Forall (fun t => early t = true) (threads st))
      \/ ((exists r, inWindow r /\ lastDetected st = Now r)
          /\ tally won (threads st) = 1%nat
          /\ tally atAccepting (threads st) = 0%nat)).

End Invariant.

End Mutex.

(** ** package config: FromYAML *)

Module Loader.

(** [v1alpha1.APIVersion], imported as [latestconfig]. *)
Definition latestAPIVersion : string := "catdoorbell.github.com/v1alpha1".

(** The errors of the loader, by the [fmt.Errorf] that makes them. *)
Inductive Error :=
| ReadError (cause : string)               (* failed to read config from reader: %w *)
| TypeMetaError (cause : string)           (* failed to unmarshal type meta from config file: %w *)
| UnsupportedAPIVersion (version : string) (* unsupported api version: %s *)
| UnsupportedKind (kind : string)          (* unsupported kind: %s *)
| ByKindError (kind : string) (cause : Error) (* failed to get config by kind %q: %w *)
| UnmarshalError (cause : string)          (* failed to unmarshal config from config file: %w *)
| UnsupportedConfigVersion (version : string) (* unsupported config version: %s *)
| MigrateError (cause : Error).            (* failed to migrate config: %w *)

Inductive result (A : Type) :=
| Ok (a : A)
| Err (e : Error).
Arguments Ok {A} a.
Arguments Err {A} e.

(** The values behind the interface [types.Config]: one version exists. *)
Inductive VersionedConfig :=
| V1alpha1 (c : Config).

Definition GetAPIVersion (v : VersionedConfig) : string :=
  match v with
  | V1alpha1 _ => latestAPIVersion
  end.

Definition emptyConfig : Config :=
  mkConfig (mkTypeMeta "" "") (mkBrokerConfig "" "" "") "" 0.

(** [v1alpha1.GetConfigByKind]. *)
Definition GetConfigByKind (kind : string) : result VersionedConfig :=
  if String.eqb kind "Config" then Ok (V1alpha1 emptyConfig)
  else Err (UnsupportedKind kind).

Definition migrateToLatest (v : VersionedConfig) : result VersionedConfig :=
  match v with
  | V1alpha1 c => Ok (V1alpha1 c)
  end.

Section Yaml.

(** [yaml.Unmarshal] belongs to gopkg.in/yaml.v3: what it decodes from the
    bytes into a [TypeMeta], and into a configuration given as it was
    before the call, or the message of its error. *)
Variable unmarshalTypeMeta : string -> string + TypeMeta.
Variable unmarshalConfig : string -> Config -> string + Config.

(** [FromYAML(r)]; the reader is what [io.ReadAll(r)] gives. *)
Definition FromYAML (r : string + string) : result Config :=
  match r with
  | inl e => Err (ReadError e)
  | inr confBytes =>
      match unmarshalTypeMeta confBytes with
      | inl e => Err (TypeMetaError e)
      | inr typeMeta =>
          if String.eqb (APIVersion typeMeta) latestAPIVersion then
            match GetConfigByKind (Kind typeMeta) with
            | Err e => Err (ByKindError (Kind typeMeta) e)
            | Ok (V1alpha1 c0) =>
                match unmarshalConfig confBytes c0 with
                | inl e => Err (UnmarshalError e)
                | inr c =>
                    match migrateToLatest (V1alpha1 c) with
                    | Err e => Err (MigrateError e)
                    | Ok (V1alpha1 c') => Ok c'
                    end
                end
            end
          else Err (UnsupportedAPIVersion (APIVersion typeMeta))
      end
  end.

End Yaml.

End Loader.

(** ** removeOldLogs *)

Module Logs.

(** An entry of the log directory: its name, and the error [os.Remove]
    answers for it, if any (a directory that is not empty, a missing
    permission). *)
Record DirEntry := mkEntry { Name : string; removeErr : option string }.

(** The directory as [os.ReadDir] lists it, sorted by file name. *)
Definition Dir := list DirEntry.

Definition unlink (name : string) (d : Dir) : Dir :=
  filter (fun e => negb (String.eqb (Name e) name)) d.

(** The loop over [entries[:len(entries)-10]]: the error that ended it,
    if any, and the directory it leaves. *)
Fixpoint removeAll (old : list DirEntry) (d : Dir) : option string * Dir :=
  match old with
  | [] => (None, d)
  | entry :: rest =>
      match removeErr entry with
      | Some e => (Some ("failed to remove old log entry: " ++ e)%string, d)
      | None => removeAll rest (unlink (Name entry) d)
      end
  end.

(** [removeOldLogs(logDir)]: [readErr] is the error of [os.ReadDir], [d]
    the directory. The result is the returned error and the directory
    afterwards. *)
Definition removeOldLogs (readErr : option string) (d : Dir) : option string * Dir :=
  match readErr with
  | Some e => (Some ("failed to read logs directory: " ++ e)%string, d)
  | None =>
      let entries := d in
      if (10 <? List.length entries)%nat then
        removeAll (firstn (List.length entries - 10) entries) d
      else (None, d)
  end.

Definition names (d : Dir) : list string := map Name d.

Definition removable (e : DirEntry) : Prop := removeErr e = None.

End Logs.

(** ** The words of the specification *)

Module Spec.

(** Debounce invariant: sighting [i] counts when it is the first one or
    [t_i - lastAccepted >= cooldown]. [specFrom] reads the sightings after
    the first, [lastAccepted] being the time of the last one that counted. *)
Fixpoint specFrom (cooldown lastAccepted : Z) (ts : list Z) : list bool :=
  match ts with
  | [] => []
  | t :: rest =>
      let ok := cooldown <=? t - lastAccepted in
      ok :: specFrom cooldown (if ok then t else lastAccepted) rest
  end.

Definition specAccepts (cooldown : Z) (ts : list Z) : list bool :=
  match ts with
  | [] => []
  | t1 :: rest => true :: specFrom cooldown t1 rest
  end.

Definition specCount (cooldown : Z) (ts : list Z) : nat :=
  List.length (filter (fun b => b) (specAccepts cooldown ts)).

(** Letter case of an ASCII byte; other bytes have none. *)
Definition lower (b : Z) : Z :=
  if (Fold.chr "A" <=? b) && (b <=? Fold.chr "Z") then b + 32 else b.

(** Two identifiers that differ by letter case at most. *)
Definition sameUpToCase (x y : string) : Prop :=
  map lower (bytes x) = map lower (bytes y).

Definition isASCII (s : string) : Prop := Forall (fun b => b < 128) (bytes s).

(** The bytes of a hardware address in its textual form: hexadecimal
    digits and the separators. *)
Definition hexByte (b : Z) : bool :=
  ((Fold.chr "0" <=? b) && (b <=? Fold.chr "9"))
  || ((Fold.chr "A" <=? b) && (b <=? Fold.chr "F"))
  || ((Fold.chr "a" <=? b) && (b <=? Fold.chr "f"))
  || (b =? Fold.chr ":") || (b =? Fold.chr "-").

Definition hexText (s : string) : bool := forallb hexByte (bytes s).

(** An ASCII byte whose folding orbit stays in ASCII: every one but the
    letters K and S. *)
Definition plain (b : Z) : bool :=
  (0 <=? b) && (b <? 128)
  && negb ((b =? Fold.chr "K") || (b =? Fold.chr "k")
           || (b =? Fold.chr "S") || (b =? Fold.chr "s")).

Definition asciiBytes (l : list Z) : Prop := Forall (fun b => 0 <= b < 128) l.
Definition plainBytes (l : list Z) : Prop := Forall (fun b => plain b = true) l.

End Spec.

(** ** Values the statements are run on *)

Module Sample.
Import Clock Doorbell.

Definition fiveMinutes : Z := 5 * Minute.

Definition conf : Config :=
  mkConfig (mkTypeMeta Loader.latestAPIVersion "Config")
           (mkBrokerConfig "tcp://doorbell-receiver:1883" "cat-doorbell" "mypassword")
           "AA:BB:CC:DD:EE:FF" fiveMinutes.

Definition icon : string := "/tmp/cat-doorbell1/cat-icon.png".

(** The clocks [s] seconds after a process start at 2024-01-01. *)
Definition atSecond (s : Z) : Reading :=
  mkReading (unixEpoch + (1704067200 + s) * Second) (s * Second).

Definition quiet (s : Z) : World :=
  mkWorld (atSecond s) (atSecond s) None None None.

Definition beacon : string := "aa:bb:cc:dd:ee:ff".

(** No folding above ASCII: enough where only ASCII is compared. *)
Definition noFold (r : Z) : Z := r.

(** The byte 0xFF, which is not UTF-8, and the text of U+FFFD. *)
Definition junk : string := String "255" "".
Definition replacement : string := String "239" (String "191" (String "189" "")).

Definition confFor (target : string) : Config :=
  mkConfig (mkTypeMeta Loader.latestAPIVersion "Config")
           (mkBrokerConfig "tcp://doorbell-receiver:1883" "cat-doorbell" "mypassword")
           target fiveMinutes.

(** The example of the debounce invariant: beacons at 0s, 60s, 301s, 302s. *)
Definition sightings : list (World * string) :=
  [(quiet 0, beacon); (quiet 60, beacon); (quiet 301, beacon); (quiet 302, beacon)].

End Sample.

(** ** Documents, directories and pools the statements are run on *)

Module Fixtures.

(** A stand-in for the YAML decoder on three documents, named by what
    their [apiVersion] and [kind] lines say. *)
Definition typeMetaOf (doc : string) : string + TypeMeta :=
  if String.eqb doc "v1alpha1/Config" then inr (mkTypeMeta Loader.latestAPIVersion "Config")
  else if String.eqb doc "v1alpha1/Pod" then inr (mkTypeMeta Loader.latestAPIVersion "Pod")
  else if String.eqb doc "v2/Config" then inr (mkTypeMeta "catdoorbell.github.com/v2" "Config")
  else inl "yaml: line 1: did not find expected key"%string.

Definition configOf (doc : string) (c : Config) : string + Config :=
  if String.eqb doc "v1alpha1/Config" then inr Sample.conf
  else inl "yaml: unmarshal errors"%string.

Definition logFile (name : string) : Logs.DirEntry := Logs.mkEntry name None.

(** Eleven log files, sorted by name. *)
Definition elevenLogs : Logs.Dir :=
  map logFile
    ["1704067200-100-cat-doorbell.log"; "1704067201-101-cat-doorbell.log";
     "1704067202-102-cat-doorbell.log"; "1704067203-103-cat-doorbell.log";
     "1704067204-104-cat-doorbell.log"; "1704067205-105-cat-doorbell.log";
     "1704067206-106-cat-doorbell.log"; "1704067207-107-cat-doorbell.log";
     "1704067208-108-cat-doorbell.log"; "1704067209-109-cat-doorbell.log";
     "1704067210-110-cat-doorbell.log"]%string.

(** The same with a directory that is not empty sorting first. *)
Definition withSubdir : Logs.Dir :=
  Logs.mkEntry "0-archive" (Some "remove logs/0-archive: directory not empty"%string)
    :: tl elevenLogs ++ [logFile "1704067211-111-cat-doorbell.log"].

(** A hundred beacons of the target, all delivered at 0s. *)
Definition hundred : list (Doorbell.World * string) :=
  repeat (Sample.quiet 0, Sample.beacon) 100.

(** Schedules: every thread of [n] in turn, [rounds] times over, counting
    up or counting down. *)
Definition roundRobin (rounds n : nat) : list nat :=
  List.concat (repeat (seq 0 n) rounds).

Definition roundRobinDown (rounds n : nat) : list nat :=
  List.concat (repeat (rev (seq 0 n)) rounds).

End Fixtures.

(** ** package v1alpha1: the methods of [Config] *)

Module V1alpha1.

Definition GetAPIVersion (c : Config) : string := Loader.latestAPIVersion.

Definition GetKind (c : Config) : string := "Config".

(** [c.TypeMeta = types.TypeMeta{APIVersion: APIVersion, Kind: "Config"}]. *)
Definition PopulateTypeMeta (c : Config) : Config :=
  mkConfig (mkTypeMeta Loader.latestAPIVersion "Config")
           (Broker c) (TargetMAC c) (DetectionTimeout c).

End V1alpha1.

(** ** package assets *)

Module Assets.

(** Files by path, the first binding of a path being the current one:
    the embedded [fsys] and the disk. *)
Definition Files := list (string * string).

Fixpoint lookup (path : string) (fs : Files) : option string :=
  match fs with
  | [] => None
  | (p, content) :: rest => if String.eqb p path then Some content else lookup path rest
  end.

Definition write (path content : string) (fs : Files) : Files := (path, content) :: fs.

(** A file handle, and what happens to handles. *)
Inductive Handle :=
| Embedded (path : string)
| OnDisk (path : string).

Inductive Op :=
| Opened (h : Handle)
| Closed (h : Handle).

(** What the system answers to [os.Create] and to [io.Copy]: an error, for
    the copy after some bytes were written. *)
Record Sys := mkSys {
  createErr : option string;
  copyErr : option (nat * string)
}.

Section Embedded.

(** [filepath.Join], of package path/filepath. *)
Variable Join : string -> string -> string.
(** [//go:embed files/*]. *)
Variable fsys : Files.

(** [Open(name)]: the content behind the handle, or the error. *)
Definition Open (name : string) : string + string :=
  match lookup (Join "files" name) fsys with
  | Some content => inr content
  | None => inl ("open " ++ Join "files" name ++ ": file does not exist")%string
  end.

(** [ReadFile(name)]. *)
Definition ReadFile (name : string) : string + string :=
  match lookup (Join "files" name) fsys with
  | Some content => inr content
  | None => inl ("open " ++ Join "files" name ++ ": file does not exist")%string
  end.

(** [Unpack(name, path)]: the error, the disk afterwards, and the handles
    opened and closed; the deferred [Close] calls run last opened first. *)
Definition Unpack (sys : Sys) (name path : string) (disk : Files)
  : option string * Files * list Op :=
  match Open name with
  | inl e => (Some e, disk, [])
  | inr content =>
      let f := Embedded (Join "files" name) in
      match createErr sys with
      | Some e => (Some e, disk, [Opened f; Closed f])
      | None =>
          let out := OnDisk path in
          let handles := [Opened f; Opened out; Closed out; Closed f] in
          match copyErr sys with
          | Some (written, e) =>
              (Some e, write path (substring 0 written content) disk, handles)
          | None => (None, write path content disk, handles)
          end
      end
  end.

End Embedded.

(** The handles still open after a sequence of operations, last opened
    first; [None] when a handle is closed that is not the last opened. *)
Definition Handle_eqb (a b : Handle) : bool :=
  match a, b with
  | Embedded p, Embedded q => String.eqb p q
  | OnDisk p, OnDisk q => String.eqb p q
  | _, _ => false
  end.

Fixpoint openAfter (held : list Handle) (ops : list Op) : option (list Handle) :=
  match ops with
  | [] => Some held
  | Opened h :: rest => openAfter (h :: held) rest
  | Closed h :: rest =>
      match held with
      | top :: held' => if Handle_eqb top h then openAfter held' rest else None
      | [] => None
      end
  end.

End Assets.

(** ** Before the action: [beforeAll], [initLogger], [loadConfig] *)

Module Startup.

(** How a [cli.BeforeFunc] ends: [nil], an error, or the process is gone
    ([os.Exit]). *)
Inductive Return (E : Type) :=
| Nil
| Failed (e : E)
| Exited (code : Z).
Arguments Nil {E}.
Arguments Failed {E} e.
Arguments Exited {E} code.

(** [beforeAll(beforeFunc...)]: the functions act on the state [S] of the
    process. *)
Fixpoint beforeAll {S E : Type} (beforeFunc : list (S -> Return E * S)) (c : S)
  : Return E * S :=
  match beforeFunc with
  | [] => (Nil, c)
  | f :: rest =>
      match f c with
      | (Nil, c') => beforeAll rest c'
      | (stopped, c') => (stopped, c')
      end
  end.

(** The errors of the two functions, by the [fmt.Errorf] that makes them. *)
Inductive Error :=
| RemoveOldLogsError (cause : string)   (* failed to remove old logs: %w *)
| OpenLogFileError (cause : string)     (* failed to open log file: %w *)
| OpenConfigError (cause : string)      (* failed to open configuration file: %w *)
| UnmarshalError (cause : Loader.Error). (* failed to unmarshal configuration: %w *)

(** What of the process the two functions touch: the directory of
    [--log-dir] as it is listed once [os.MkdirAll] has passed, the log file
    that the default logger writes to besides stderr, and [var conf]. *)
Record Proc := mkProc {
  logDir : Logs.Dir;
  logFile : option string;
  conf : option Config
}.

(** What the system answers. *)
Record Sys := mkSys {
  mkdirAllErr : option string;
  readDirErr : option string;
  unixTime : Z;                  (* time.Now().Unix() *)
  pid : Z;                       (* os.Getpid() *)
  openLogErr : option string;
  openConfigErr : option string;
  configReader : string + string (* io.ReadAll on the opened file *)
}.

(** [%d]. *)
Definition decimal (z : Z) : string := NilZero.string_of_int (Z.to_int z).

(** [fmt.Sprintf("%d-%d-cat-doorbell.log", time.Now().Unix(), os.Getpid())]. *)
Definition logFileName (sys : Sys) : string :=
  (decimal (unixTime sys) ++ "-" ++ decimal (pid sys) ++ "-cat-doorbell.log")%string.

(** [os.OpenFile(name, O_CREATE|O_WRONLY|O_APPEND, 0o644)] when it
    succeeds: a file of that name is opened as it is, else a new one
    takes its place in the sorted listing. *)
Fixpoint create (name : string) (d : Logs.Dir) : Logs.Dir :=
  match d with
  | [] => [Logs.mkEntry name None]
  | e :: rest =>
      if String.eqb (Logs.Name e) name then d
      else if String.ltb name (Logs.Name e) then Logs.mkEntry name None :: d
      else e :: create name rest
  end.

Definition initLogger (sys : Sys) (p : Proc) : Return Error * Proc :=
  match mkdirAllErr sys with
  | Some _ => (Exited 1, p)
  | None =>
      let '(err, d) := Logs.removeOldLogs (readDirErr sys) (logDir p) in
      match err with
      | Some e => (Failed (RemoveOldLogsError e), mkProc d (logFile p) (conf p))
      | None =>
          match openLogErr sys with
          | Some e => (Failed (OpenLogFileError e), mkProc d (logFile p) (conf p))
          | None =>
              (Nil, mkProc (create (logFileName sys) d) (Some (logFileName sys)) (conf p))
          end
      end
  end.

Section Yaml.

Variable unmarshalTypeMeta : string -> string + TypeMeta.
Variable unmarshalConfig : string -> Config -> string + Config.

(** [loadConfig]: [conf, err = config.FromYAML(configFile)] assigns [conf]
    also when it fails. *)
Definition loadConfig (sys : Sys) (p : Proc) : Return Error * Proc :=
  match openConfigErr sys with
  | Some e => (Failed (OpenConfigError e), p)
  | None =>
      match Loader.FromYAML unmarshalTypeMeta unmarshalConfig (configReader sys) with
      | Loader.Ok c => (Nil, mkProc (logDir p) (logFile p) (Some c))
      | Loader.Err e => (Failed (UnmarshalError e), mkProc (logDir p) (logFile p) None)
      end
  end.

(** [Before: beforeAll(initLogger, loadConfig)]. *)
Definition Before (sys : Sys) : Proc -> Return Error * Proc :=
  beforeAll [initLogger sys; loadConfig sys].

End Yaml.

End Startup.

(** ** [run]: what it acquires and what its deferred calls release *)

Module Runner.

Inductive Call :=
| Hostname                              (* os.Hostname() *)
| Connect                               (* client.Connect(), token.Wait() *)
| Disconnect (quiesce : Z)              (* client.Disconnect(250) *)
| SpeakerInit                           (* speaker.Init(sr, sr.N(time.Second/10)) *)
| MkdirTemp (dir : string)              (* os.MkdirTemp("", "cat-doorbell") answering dir *)
| RemoveAll (dir : string)              (* os.RemoveAll(tempDir) *)
| UnpackIcon (name dir : string)        (* assets.Unpack("cat-icon.png", catIconPath) *)
| Subscribe (topic : string) (qos : Z)  (* client.Subscribe(mqttTopic, 0, ...) *)
| AwaitDone.                            (* <-ctx.Done() *)

(** A call that went through, or one that answered an error. *)
Inductive Step :=
| Did (c : Call)
| Refused (c : Call).

Inductive Error :=
| HostnameError (cause : string)    (* failed to get hostname: %w *)
| ConnectError (cause : string)     (* failed to connect to MQTT broker: %w *)
| SpeakerError (cause : string)     (* failed to initialize speaker: %w *)
| TempDirError (cause : string)     (* failed to create temporary directory: %w *)
| UnpackError (cause : string)      (* failed to unpack cat icon: %w *)
| SubscribeError (cause : string)   (* failed to subscribe to MQTT topic: %w *)
| ContextError (cause : string).    (* ctx.Err() *)

(** What the system answers during one [run]. *)
Record Boot := mkBoot {
  hostnameErr : option string;
  connectErr : option string;
  speakerErr : option string;
  tempDir : string + string;       (* the error, or the directory made *)
  unpackErr : option string;
  subscribeErr : option string;
  ctxErr : string                  (* ctx.Err() once ctx.Done() is closed *)
}.

Definition mqttTopic : string := "bluetooth/devices".

(** A return: the deferred calls run, the last deferred first. *)
Definition leave (deferred : list Call) (trace : list Step) (err : Error)
  : Error * list Step :=
  (err, trace ++ map Did deferred).

Definition run (b : Boot) : Error * list Step :=
  match hostnameErr b with
  | Some e => leave [] [Refused Hostname] (HostnameError e)
  | None =>
  match connectErr b with
  | Some e => leave [] [Did Hostname; Refused Connect] (ConnectError e)
  | None =>
  let deferred := [Disconnect 250] in
  match speakerErr b with
  | Some e =>
      leave deferred [Did Hostname; Did Connect; Refused SpeakerInit] (SpeakerError e)
  | None =>
  match tempDir b with
  | inl e =>
      leave deferred [Did Hostname; Did Connect; Did SpeakerInit; Refused (MkdirTemp "")]
        (TempDirError e)
  | inr dir =>
  let deferred := RemoveAll dir :: deferred in
  let made := [Did Hostname; Did Connect; Did SpeakerInit; Did (MkdirTemp dir)] in
  match unpackErr b with
  | Some e =>
      leave deferred (made ++ [Refused (UnpackIcon "cat-icon.png" dir)]) (UnpackError e)
  | None =>
  match subscribeErr b with
  | Some e =>
      leave deferred
        (made ++ [Did (UnpackIcon "cat-icon.png" dir); Refused (Subscribe mqttTopic 0)])
        (SubscribeError e)
  | None =>
      leave deferred
        (made ++ [Did (UnpackIcon "cat-icon.png" dir); Did (Subscribe mqttTopic 0);
                  Did AwaitDone])
        (ContextError (ctxErr b))
  end end end end end end.

(** What a call that went through obliges the function to undo. *)
Definition owes (c : Call) : option Call :=
  match c with
  | Connect => Some (Disconnect 250)
  | MkdirTemp dir => Some (RemoveAll dir)
  | _ => None
  end.

Definition Call_eqb (a b : Call) : bool :=
  match a, b with
  | Disconnect x, Disconnect y => Z.eqb x y
  | RemoveAll x, RemoveAll y => String.eqb x y
  | _, _ => false
  end.

Definition isRelease (c : Call) : bool :=
  match c with
  | Disconnect _ | RemoveAll _ => true
  | _ => false
  end.

(** The releases still owed after a trace, the latest obligation first;
    [None] when a release comes that is not the latest owed. *)
Fixpoint owedAfter (owed : list Call) (trace : list Step) : option (list Call) :=
  match trace with
  | [] => Some owed
  | Refused _ :: rest => owedAfter owed rest
  | Did c :: rest =>
      if isRelease c then
        match owed with
        | top :: owed' => if Call_eqb top c then owedAfter owed' rest else None
        | [] => None
        end
      else
        match owes c with
        | Some r => owedAfter (r :: owed) rest
        | None => owedAfter owed rest
        end
  end.

End Runner.

(** ** Systems the statements are run on *)

Module Machines.

(** A start at 2024-01-01 00:03:31 as process 4242, everything working. *)
Definition working : Startup.Sys :=
  Startup.mkSys None None 1704067411 4242 None None (inr "v1alpha1/Config"%string).

Definition starting : Startup.Proc := Startup.mkProc Fixtures.elevenLogs None None.

End Machines.

(** ** The callbacks as if delivered one after the other *)

Module Serial.
Import Clock Doorbell Mutex.

(** The elements of [l] at the indices [idx], in the order of [idx]. *)
Definition select {A B : Type} (f : A -> B) (l : list A) (idx : list nat) : list B :=
  flat_map (fun i => match nth_error l i with
                     | Some x => [f x]
                     | None => []
                     end) idx.

Section Standing.

Variable unicodeFold : Z -> Z.
Variable conf : Config.
Variable icon : string.

(** Where a thread that has not returned stands, [v] being [lastDetected]
    as the callbacks that returned before it left it, and [ld] its value
    now. *)
Definition standing (v ld : Time) (t : Thread) : Prop :=
  let received := [Debug "Received beacon from device" (payload t)] in
  let matched := Fold.EqualFold unicodeFold (payload t) (TargetMAC conf) = true in
  let passed := DetectionTimeout conf <=? Since (sinceClock (world t)) v in
  match pc t with
  | Received => trace t = []
  | WantLock => trace t = received /\ matched
  | Holding => trace t = received /\ matched /\ ld = v
  | Accepting => trace t = received /\ matched /\ ld = v /\ passed = true
  | Ignoring => trace t = received /\ matched /\ ld = v /\ passed = false
  | Alerting =>
      trace t = received /\ matched /\ passed = true /\ ld = Now (nowClock (world t))
  | Leaving => (ld, trace t) = onMessage unicodeFold conf icon (world t) (payload t) v
  | Done => False
  end.

(** The callbacks at the indices [fin] have returned, in that order, and
    the pool is as if they had been delivered one after the other. *)
Definition serialized (ds : list (World * string)) (st : Shared) (fin : list nat) : Prop :=
  let v := fst (deliver unicodeFold conf icon (select (fun d => d) ds fin) zeroTime) in
  NoDup fin
  /\ List.length (threads st) = List.length ds
  /\ (forall i t, nth_error (threads st) i = Some t ->
        nth_error ds i = Some (world t, payload t))
  /\ (forall i, In i fin -> exists t, nth_error (threads st) i = Some t /\ pc t = Done)
  /\ select trace (threads st) fin
     = snd (deliver unicodeFold conf icon (select (fun d => d) ds fin) zeroTime)
  /\ (forall i t, nth_error (threads st) i = Some t -> ~ In i fin ->
        standing v (lastDetected st) t)
  /\ tally inCritical (threads st) = (if locked st then 1 else 0)%nat
  /\ (locked st = false -> lastDetected st = v).

End Standing.
End Serial.

(** * Theorems *)

(** ** The clock *)

Module ClockFacts.
Import Clock.

Lemma wrap64_small (z : Z) : minDuration <= z <= maxDuration -> wrap64 z = z.
Proof.
  unfold minDuration, maxDuration, wrap64. intros H.
  rewrite Z.mod_small; lia.
Qed.

Lemma wrap64_range (z : Z) : minDuration <= wrap64 z <= maxDuration.
Proof.
  unfold minDuration, maxDuration, wrap64.
  pose proof (Z.mod_pos_bound (z + 2 ^ 63) (2 ^ 64) ltac:(lia)). lia.
Qed.

Lemma unixEpoch_late : maxDuration < unixEpoch.
Proof. vm_compute. reflexivity. Qed.

(** At the first beacon [lastDetected] is the zero [Time], more than 292
    years before any reading: [time.Since] saturates. *)
Lemma Since_zeroTime (r : Reading) : sane r -> Since r zeroTime = maxDuration.
Proof.
  intros [Hw _]. unfold Since, Sub. cbn [mono zeroTime Now wall].
  pose proof (wrap64_range (wallclock r - 0)) as Hd.
  pose proof unixEpoch_late as Hl.
  unfold minDuration, maxDuration in Hd, Hl.
  destruct (Z.eqb_spec (0 + wrap64 (wallclock r - 0)) (wallclock r)); [lia|].
  destruct (Z.ltb_spec (wallclock r) 0); [lia|reflexivity].
Qed.

(** Afterwards it is a value of [time.Now], and [time.Since] is the
    difference of the monotonic readings. *)
Lemma Since_Now (r r0 : Reading) :
  sane r -> sane r0 -> Since r (Now r0) = monotonic r - monotonic r0.
Proof.
  intros [_ Hr] [_ Hr0]. unfold Since, subMono. cbn [mono Now].
  rewrite wrap64_small by (unfold minDuration, maxDuration in *; lia).
  destruct (Z.ltb_spec (monotonic r - monotonic r0) 0);
    destruct (Z.ltb_spec (monotonic r0) (monotonic r));
    destruct (Z.ltb_spec 0 (monotonic r - monotonic r0));
    destruct (Z.ltb_spec (monotonic r) (monotonic r0)); cbn; lia.
Qed.

Lemma timeout_le_maxDuration (c : Z) : isDuration c -> (c <=? maxDuration) = true.
Proof. intros [_ H]. apply Z.leb_le. exact H. Qed.

Lemma saneb_sane (r : Reading) : saneb r = true -> sane r.
Proof.
  unfold saneb, sane. rewrite !andb_true_iff, !Z.leb_le. tauto.
Qed.

End ClockFacts.

(** ** The callback, one delivery *)

Module DoorbellFacts.
Import Clock Doorbell ClockFacts.

Section CallbackFacts.

Variable unicodeFold : Z -> Z.
Variable conf : Config.
Variable catIconPath : string.

Local Abbreviation onMessage := (onMessage unicodeFold conf catIconPath).
Local Abbreviation matches := (fun payload => Fold.EqualFold unicodeFold payload (TargetMAC conf)).

Lemma accepted_alert (w : World) (mac : string) (pre : list Event) :
  accepted (pre ++ alert catIconPath w mac) = true.
Proof.
  unfold accepted, alert. destruct (playDoorbell w) as [perr played].
  rewrite existsb_app. cbn. apply orb_true_r.
Qed.

Lemma dispatched_alert (w : World) (mac : string) (pre : list Event) :
  dispatched (pre ++ alert catIconPath w mac) = true.
Proof.
  unfold dispatched, alert. destruct (playDoorbell w) as [perr played].
  rewrite existsb_app. cbn. apply orb_true_r.
Qed.

(** The three ways out of the callback. *)
Lemma onMessage_other (w : World) (payload : string) (t : Time) :
  matches payload = false ->
  onMessage w payload t = (t, [Debug "Received beacon from device" payload]).
Proof. intros H. unfold Doorbell.onMessage. rewrite H. reflexivity. Qed.

Lemma onMessage_accept (w : World) (payload : string) (t : Time) :
  matches payload = true ->
  DetectionTimeout conf <= Since (sinceClock w) t ->
  onMessage w payload t
  = (Now (nowClock w),
     [Debug "Received beacon from device" payload] ++ alert catIconPath w payload).
Proof.
  intros H Hc. unfold Doorbell.onMessage. rewrite H.
  apply Z.leb_le in Hc. rewrite Hc. reflexivity.
Qed.

Lemma onMessage_ignore (w : World) (payload : string) (t : Time) :
  matches payload = true ->
  Since (sinceClock w) t < DetectionTimeout conf ->
  onMessage w payload t
  = (t, [Debug "Received beacon from device" payload;
         Debug "Ignoring beacon from device" payload]).
Proof.
  intros H Hc. unfold Doorbell.onMessage. rewrite H.
  apply Z.leb_gt in Hc. rewrite Hc. reflexivity.
Qed.

(** A trace is that of an accepted beacon only on the second way. *)
Lemma accepted_inv (w : World) (payload : string) (t : Time) :
  accepted (snd (onMessage w payload t)) = true ->
  matches payload = true /\ DetectionTimeout conf <= Since (sinceClock w) t.
Proof.
  unfold Doorbell.onMessage.
  destruct (Fold.EqualFold unicodeFold payload (TargetMAC conf)); [|discriminate].
  destruct (Z.leb_spec (DetectionTimeout conf) (Since (sinceClock w) t)).
  - auto.
  - discriminate.
Qed.

End CallbackFacts.

End DoorbellFacts.

(** ** One delivery, and deliveries in sequence *)

Module Debounce.
Import Clock Doorbell ClockFacts DoorbellFacts.

Ltac side := vm_compute; intuition (discriminate || congruence).

(** C2. The debounce gate of the callback, for a beacon of the target.
    With [lastDetected] still the zero [Time] (nothing accepted since the
    process started), or with at least the cooldown between the last
    accepted time and the clock read by [time.Since], the callback stores
    the value of [time.Now()] in [lastDetected] and takes the accepting
    branch; otherwise it takes the ignoring branch, raises no alert and
    leaves [lastDetected] as it was. *)
Theorem debounce_gate (unicodeFold : Z -> Z) (conf : Config) (icon : string)
    (w : World) (payload : string) (last : Reading) :
  isDuration (DetectionTimeout conf) ->
  sane (sinceClock w) ->
  sane last ->
  Fold.EqualFold unicodeFold payload (TargetMAC conf) = true ->
  let run := onMessage unicodeFold conf icon w payload in
  let elapsed := monotonic (sinceClock w) - monotonic last in
  (fst (run zeroTime) = Now (nowClock w) /\ accepted (snd (run zeroTime)) = true)
  /\ (DetectionTimeout conf <= elapsed ->
      fst (run (Now last)) = Now (nowClock w)
      /\ accepted (snd (run (Now last))) = true)
  /\ (elapsed < DetectionTimeout conf ->
      fst (run (Now last)) = Now last
      /\ accepted (snd (run (Now last))) = false
      /\ dispatched (snd (run (Now last))) = false).
Proof.
  intros Hd Hw Hl Hm run elapsed. subst run elapsed.
  repeat split.
  - rewrite onMessage_accept; auto.
    rewrite Since_zeroTime by assumption. apply Hd.
  - rewrite onMessage_accept; auto.
    + apply accepted_alert.
    + rewrite Since_zeroTime by assumption. apply Hd.
  - rewrite onMessage_accept; auto. rewrite Since_Now; assumption.
  - rewrite onMessage_accept; auto.
    + apply accepted_alert.
    + rewrite Since_Now; assumption.
  - rewrite onMessage_ignore; auto. rewrite Since_Now; assumption.
  - rewrite onMessage_ignore; auto. rewrite Since_Now; assumption.
  - rewrite onMessage_ignore; auto. rewrite Since_Now; assumption.
Qed.

Lemma debounce_gate_witness :
  let run := onMessage Sample.noFold Sample.conf Sample.icon (Sample.quiet 301) Sample.beacon in
  let elapsed := monotonic (Sample.atSecond 301) - monotonic (Sample.atSecond 0) in
  (fst (run zeroTime) = Now (Sample.atSecond 301) /\ accepted (snd (run zeroTime)) = true)
  /\ (DetectionTimeout Sample.conf <= elapsed ->
      fst (run (Now (Sample.atSecond 0))) = Now (Sample.atSecond 301)
      /\ accepted (snd (run (Now (Sample.atSecond 0)))) = true)
  /\ (elapsed < DetectionTimeout Sample.conf ->
      fst (run (Now (Sample.atSecond 0))) = Now (Sample.atSecond 0)
      /\ accepted (snd (run (Now (Sample.atSecond 0)))) = false
      /\ dispatched (snd (run (Now (Sample.atSecond 0)))) = false).
Proof.
  apply (debounce_gate Sample.noFold Sample.conf Sample.icon (Sample.quiet 301)
           Sample.beacon (Sample.atSecond 0)).
  - side.
  - side.
  - side.
  - reflexivity.
Defined.

(** C4. A message whose payload does not match the configured address:
    [lastDetected] keeps its value and the trace of the callback is the
    one debug line, so neither [beeep.Notify] nor [playDoorbell] runs. *)
Theorem non_matching_isolation (unicodeFold : Z -> Z) (conf : Config) (icon : string)
    (w : World) (payload : string) (lastDetected : Time) :
  Fold.EqualFold unicodeFold payload (TargetMAC conf) = false ->
  fst (onMessage unicodeFold conf icon w payload lastDetected) = lastDetected
  /\ snd (onMessage unicodeFold conf icon w payload lastDetected)
     = [Debug "Received beacon from device" payload]
  /\ dispatched (snd (onMessage unicodeFold conf icon w payload lastDetected)) = false
  /\ accepted (snd (onMessage unicodeFold conf icon w payload lastDetected)) = false.
Proof.
  intros H. rewrite onMessage_other by assumption. repeat split.
Qed.

Lemma non_matching_isolation_witness :
  fst (onMessage Sample.noFold Sample.conf Sample.icon (Sample.quiet 7)
         "11:22:33:44:55:66" zeroTime) = zeroTime
  /\ snd (onMessage Sample.noFold Sample.conf Sample.icon (Sample.quiet 7)
            "11:22:33:44:55:66" zeroTime)
     = [Debug "Received beacon from device" "11:22:33:44:55:66"]
  /\ dispatched (snd (onMessage Sample.noFold Sample.conf Sample.icon (Sample.quiet 7)
                        "11:22:33:44:55:66" zeroTime)) = false
  /\ accepted (snd (onMessage Sample.noFold Sample.conf Sample.icon (Sample.quiet 7)
                      "11:22:33:44:55:66" zeroTime)) = false.
Proof.
  apply (non_matching_isolation Sample.noFold Sample.conf Sample.icon (Sample.quiet 7)
           "11:22:33:44:55:66" zeroTime).
  reflexivity.
Defined.



(** Deliveries in sequence, once a first beacon was accepted at [last]:
    the accepting branch is taken as [Spec.specFrom] says. *)
Lemma deliver_specFrom (unicodeFold : Z -> Z) (conf : Config) (icon : string)
    (ds : list (World * string)) :
  Forall (fun d => sane (sinceClock (fst d))
                   /\ nowClock (fst d) = sinceClock (fst d)
                   /\ Fold.EqualFold unicodeFold (snd d) (TargetMAC conf) = true) ds ->
  forall last, sane last ->
  map accepted (snd (deliver unicodeFold conf icon ds (Now last)))
  = Spec.specFrom (DetectionTimeout conf) (monotonic last) (map stamp ds).
Proof.
  induction 1 as [|[w p] ds [Hs [Hn Hm]] Hds IH]; intros last Hl; [reflexivity|].
  cbn [deliver map Spec.specFrom fst snd] in *.
  change (stamp (w, p)) with (monotonic (sinceClock w)).
  destruct (Z.leb_spec (DetectionTimeout conf) (monotonic (sinceClock w) - monotonic last)).
  - rewrite onMessage_accept by (auto; rewrite Since_Now; assumption).
    specialize (IH (nowClock w)). rewrite Hn in *.
    destruct (deliver unicodeFold conf icon ds (Now (sinceClock w))) as [t' more].
    cbn [map snd] in *. rewrite accepted_alert. f_equal. apply IH. assumption.
  - rewrite onMessage_ignore by (auto; rewrite Since_Now; assumption).
    specialize (IH last Hl).
    destruct (deliver unicodeFold conf icon ds (Now last)) as [t' more].
    cbn [map snd] in *. f_equal. exact IH.
Qed.

(** The same with the clock moving inside the callback: [time.Since]
    tests against the reading that [time.Now()] gave to the last accepted
    beacon. *)
Lemma deliver_gateFrom (unicodeFold : Z -> Z) (conf : Config) (icon : string)
    (ds : list (World * string)) :
  Forall (fun d => sane (sinceClock (fst d)) /\ sane (nowClock (fst d))
                   /\ Fold.EqualFold unicodeFold (snd d) (TargetMAC conf) = true) ds ->
  forall last, sane last ->
  map accepted (snd (deliver unicodeFold conf icon ds (Now last)))
  = gateFrom (DetectionTimeout conf) (monotonic last)
      (map (fun d => (stamp d, recorded d)) ds).
Proof.
  induction 1 as [|[w p] ds [Hs [Hn Hm]] Hds IH]; intros last Hl; [reflexivity|].
  cbn [deliver map gateFrom fst snd] in *.
  change (stamp (w, p)) with (monotonic (sinceClock w)).
  change (recorded (w, p)) with (monotonic (nowClock w)).
  destruct (Z.leb_spec (DetectionTimeout conf) (monotonic (sinceClock w) - monotonic last)).
  - rewrite onMessage_accept by (auto; rewrite Since_Now; assumption).
    specialize (IH (nowClock w) Hn).
    destruct (deliver unicodeFold conf icon ds (Now (nowClock w))) as [t' more].
    cbn [map snd] in *. rewrite accepted_alert. f_equal. exact IH.
  - rewrite onMessage_ignore by (auto; rewrite Since_Now; assumption).
    specialize (IH last Hl).
    destruct (deliver unicodeFold conf icon ds (Now last)) as [t' more].
    cbn [map snd] in *. f_equal. exact IH.
Qed.

Lemma gateFrom_one_instant (cooldown last : Z) (ts : list Z) :
  gateFrom cooldown last (map (fun t => (t, t)) ts) = Spec.specFrom cooldown last ts.
Proof.
  revert last. induction ts as [|t ts IH]; intros last; cbn; [reflexivity|].
  rewrite IH. reflexivity.
Qed.

Lemma countAccepted_flags (traces : list (list Event)) :
  countAccepted traces = List.length (filter (fun b => b) (map accepted traces)).
Proof.
  unfold countAccepted. induction traces as [|evs rest IH]; [reflexivity|].
  cbn. destruct (accepted evs); cbn; congruence.
Qed.



End Debounce.

(** ** The configuration loader *)

Module LoaderFacts.
Import Loader.

(** C7. [FromYAML] on a document that was read and whose type meta was
    decoded: an [apiVersion] other than [v1alpha1.APIVersion] gives the
    error "unsupported api version" and no configuration; the supported
    version with a kind other than "Config" gives the error "unsupported
    kind" (wrapped by "failed to get config by kind") and no
    configuration. A configuration is returned only for the supported
    version and kind and when the whole document decodes, and it is then
    the decoded value. *)
Theorem FromYAML_discriminators
    (unmarshalTypeMeta : string -> string + TypeMeta)
    (unmarshalConfig : string -> Config -> string + Config)
    (confBytes : string) (typeMeta : TypeMeta) :
  unmarshalTypeMeta confBytes = inr typeMeta ->
  let loaded := FromYAML unmarshalTypeMeta unmarshalConfig (inr confBytes) in
  (APIVersion typeMeta <> latestAPIVersion ->
     loaded = Err (UnsupportedAPIVersion (APIVersion typeMeta)))
  /\ (APIVersion typeMeta = latestAPIVersion -> Kind typeMeta <> "Config"%string ->
     loaded = Err (ByKindError (Kind typeMeta) (UnsupportedKind (Kind typeMeta))))
  /\ (forall c, loaded = Ok c <->
        APIVersion typeMeta = latestAPIVersion
        /\ Kind typeMeta = "Config"%string
        /\ unmarshalConfig confBytes emptyConfig = inr c).
Proof.
  intros Htm loaded. subst loaded. unfold FromYAML. rewrite Htm.
  unfold GetConfigByKind.
  destruct (String.eqb_spec (APIVersion typeMeta) latestAPIVersion) as [Hv|Hv];
    destruct (String.eqb_spec (Kind typeMeta) "Config") as [Hk|Hk].
  - split; [congruence|]. split; [congruence|]. intros c. split.
    + destruct (unmarshalConfig confBytes emptyConfig); cbn; intros H;
        inversion H; subst; auto.
    + intros [_ [_ Hc]]. rewrite Hc. reflexivity.
  - split; [congruence|]. split; [reflexivity|]. intros c. split.
    + discriminate.
    + tauto.
  - split; [reflexivity|]. split; [congruence|]. intros c. split.
    + discriminate.
    + tauto.
  - split; [reflexivity|]. split; [congruence|]. intros c. split.
    + discriminate.
    + tauto.
Qed.

Lemma FromYAML_discriminators_witness :
  let loaded := FromYAML Fixtures.typeMetaOf Fixtures.configOf (inr "v2/Config"%string) in
  let typeMeta := mkTypeMeta "catdoorbell.github.com/v2" "Config" in
  (APIVersion typeMeta <> latestAPIVersion ->
     loaded = Err (UnsupportedAPIVersion (APIVersion typeMeta)))
  /\ (APIVersion typeMeta = latestAPIVersion -> Kind typeMeta <> "Config"%string ->
     loaded = Err (ByKindError (Kind typeMeta) (UnsupportedKind (Kind typeMeta))))
  /\ (forall c, loaded = Ok c <->
        APIVersion typeMeta = latestAPIVersion
        /\ Kind typeMeta = "Config"%string
        /\ Fixtures.configOf "v2/Config" emptyConfig = inr c).
Proof.
  apply (FromYAML_discriminators Fixtures.typeMetaOf Fixtures.configOf "v2/Config"
           (mkTypeMeta "catdoorbell.github.com/v2" "Config")).
  reflexivity.
Defined.

(** The loader on the three sample documents and on a reader that fails. *)
Example FromYAML_samples :
  FromYAML Fixtures.typeMetaOf Fixtures.configOf (inr "v1alpha1/Config"%string) = Ok Sample.conf
  /\ FromYAML Fixtures.typeMetaOf Fixtures.configOf (inr "v1alpha1/Pod"%string)
     = Err (ByKindError "Pod" (UnsupportedKind "Pod"))
  /\ FromYAML Fixtures.typeMetaOf Fixtures.configOf (inr "v2/Config"%string)
     = Err (UnsupportedAPIVersion "catdoorbell.github.com/v2")
  /\ FromYAML Fixtures.typeMetaOf Fixtures.configOf (inl "unexpected EOF"%string)
     = Err (ReadError "unexpected EOF").
Proof. repeat split. Qed.

End LoaderFacts.

(** ** Pruning the log directory *)

Module LogsFacts.
Import Logs.

Lemma unlink_absent (name : string) (d : Dir) :
  ~ In name (names d) -> unlink name d = d.
Proof.
  induction d as [|e d IH]; intros Hn; [reflexivity|].
  cbn in *. destruct (String.eqb_spec (Name e) name) as [He|He].
  - exfalso. apply Hn. left. exact He.
  - cbn. f_equal. apply IH. intros Hin. apply Hn. right. exact Hin.
Qed.

Lemma unlink_head (e : DirEntry) (d : Dir) :
  ~ In (Name e) (names d) -> unlink (Name e) (e :: d) = d.
Proof.
  intros Hn. cbn. rewrite String.eqb_refl. cbn. apply unlink_absent. exact Hn.
Qed.

(** The loop passes the entries it can remove and goes on with the rest. *)
Lemma removeAll_passes (pre more : list DirEntry) (d : Dir) :
  NoDup (names (pre ++ d)) ->
  Forall removable pre ->
  removeAll (pre ++ more) (pre ++ d) = removeAll more d.
Proof.
  induction pre as [|e pre IH]; intros Hnd Hrm; [reflexivity|].
  inversion Hrm as [|? ? He Hpre]; subst.
  cbn in Hnd. inversion Hnd as [|? ? Hnotin Hnd']; subst.
  cbn [app removeAll]. rewrite He.
  change (e :: pre ++ d) with (e :: (pre ++ d)).
  rewrite unlink_head by exact Hnotin.
  apply IH; assumption.
Qed.

Lemma split_at (n : nat) (d : Dir) : d = firstn n d ++ skipn n d.
Proof. symmetry. apply firstn_skipn. Qed.

(** C10 as first written fails where [os.Remove] fails: a directory
    of twelve entries whose first is a directory that is not empty. The
    call returns the error and all twelve entries are still there. *)
Lemma removeOldLogs_stops_at_failure :
  List.length Fixtures.withSubdir = 12%nat
  /\ NoDup (names Fixtures.withSubdir)
  /\ removeOldLogs None Fixtures.withSubdir
     = (Some "failed to remove old log entry: remove logs/0-archive: directory not empty"%string,
        Fixtures.withSubdir)
  /\ snd (removeOldLogs None Fixtures.withSubdir) <> skipn 2 Fixtures.withSubdir
  /\ List.length (snd (removeOldLogs None Fixtures.withSubdir)) <> 10%nat.
Proof.
  split; [reflexivity|]. split.
  { unfold Fixtures.withSubdir, Fixtures.elevenLogs, names. cbn.
    repeat (constructor; [cbn; intuition discriminate|]). constructor. }
  split; [reflexivity|]. split; [discriminate|]. cbn. discriminate.
Qed.

(** C10, amended. For a directory listing [d] (names are distinct):
    nothing is removed, and the call succeeds, when [d] has ten entries or
    fewer. With more, the entries before the last ten are removed in the
    order of the listing; when each of these removals succeeds the call
    succeeds and exactly the last ten entries remain; at the first one
    that fails the call returns that error and the failing entry and all
    later ones remain. In every case the last ten entries remain. *)
Theorem removeOldLogs_keeps_last_ten (d : Dir) :
  NoDup (names d) ->
  let old := firstn (List.length d - 10) d in
  ((List.length d <= 10)%nat -> removeOldLogs None d = (None, d))
  /\ ((10 < List.length d)%nat -> Forall removable old ->
      removeOldLogs None d = (None, skipn (List.length d - 10) d)
      /\ List.length (snd (removeOldLogs None d)) = 10%nat)
  /\ (forall (k : nat) (e : DirEntry) (err : string),
        (10 < List.length d)%nat ->
        nth_error old k = Some e ->
        removeErr e = Some err ->
        Forall removable (firstn k old) ->
        removeOldLogs None d
        = (Some ("failed to remove old log entry: " ++ err)%string, skipn k d))
  /\ (exists k, (k <= List.length d - 10)%nat
                /\ snd (removeOldLogs None d) = skipn k d).
Proof.
  intros Hnd old.
  assert (Hsmall : (List.length d <= 10)%nat -> removeOldLogs None d = (None, d)).
  { intros Hle. unfold removeOldLogs.
    destruct (Nat.ltb_spec 10 (List.length d)); [lia|reflexivity]. }
  assert (Hfail : forall (k : nat) (e : DirEntry) (err : string),
        (10 < List.length d)%nat ->
        nth_error old k = Some e ->
        removeErr e = Some err ->
        Forall removable (firstn k old) ->
        removeOldLogs None d
        = (Some ("failed to remove old log entry: " ++ err)%string, skipn k d)).
  { intros k e err Hlen Hk He Hpre. unfold removeOldLogs.
    destruct (Nat.ltb_spec 10 (List.length d)); [|lia].
    fold old.
    assert (Hklt : (k < List.length old)%nat)
      by (apply nth_error_Some; congruence).
    assert (Hold : (List.length old <= List.length d)%nat)
      by (subst old; rewrite length_firstn; lia).
    assert (Hfk : firstn k old = firstn k d).
    { subst old. rewrite firstn_firstn. f_equal.
      rewrite length_firstn in Hklt. lia. }
    destruct (nth_error_split old k Hk) as [pre [post [Hsplit Hlenpre]]].
    assert (Hpre' : pre = firstn k d).
    { rewrite <- Hfk, Hsplit, <- Hlenpre, firstn_app, Nat.sub_diag, firstn_all.
      cbn. rewrite app_nil_r. reflexivity. }
    assert (Hcut : removeAll old d = removeAll (pre ++ e :: post) (pre ++ skipn k d)).
    { rewrite <- Hsplit. rewrite Hpre', firstn_skipn. reflexivity. }
    rewrite Hcut, removeAll_passes.
    - assert (Hhd : exists tl', skipn k d = e :: tl').
      { assert (Hnth : nth_error d k = Some e).
        { subst old. rewrite nth_error_firstn in Hk.
          destruct (Nat.ltb_spec k (List.length d - 10)); [assumption|discriminate]. }
        clear - Hnth. revert d Hnth. induction k as [|k IH]; intros [|x d] H;
          cbn in *; try discriminate.
        - inversion H; subst. eauto.
        - apply IH. exact H. }
      destruct Hhd as [tl' Htl]. rewrite Htl. cbn. rewrite He. reflexivity.
    - rewrite Hpre', firstn_skipn. exact Hnd.
    - rewrite Hpre', <- Hfk. exact Hpre. }
  assert (Hok : (10 < List.length d)%nat -> Forall removable old ->
      removeOldLogs None d = (None, skipn (List.length d - 10) d)).
  { intros Hlen Hall. unfold removeOldLogs.
    destruct (Nat.ltb_spec 10 (List.length d)); [|lia].
    fold old.
    assert (Hcut : removeAll old d
                   = removeAll (old ++ []) (old ++ skipn (List.length d - 10) d)).
    { rewrite app_nil_r. subst old. rewrite firstn_skipn. reflexivity. }
    rewrite Hcut, removeAll_passes.
    - reflexivity.
    - subst old. rewrite firstn_skipn. exact Hnd.
    - exact Hall. }
  split; [exact Hsmall|]. split.
  { intros Hlen Hall. split; [apply Hok; assumption|].
    rewrite Hok by assumption. cbn [snd]. rewrite length_skipn. lia. }
  split; [exact Hfail|].
  destruct (Nat.le_gt_cases (List.length d) 10) as [Hle|Hgt].
  { exists 0%nat. split; [lia|]. rewrite Hsmall by assumption. reflexivity. }
  (* the first entry of [old] that cannot be removed, if any *)
  assert (Hdec : Forall removable old
                 \/ exists k e err, nth_error old k = Some e /\ removeErr e = Some err
                                    /\ Forall removable (firstn k old)).
  { clear. induction old as [|x l IH]; [left; constructor|].
    destruct (removeErr x) as [err|] eqn:Hx.
    - right. exists 0%nat, x, err. repeat split; auto; cbn; constructor.
    - destruct IH as [IH|[k [e [err [Hk [He Hpre]]]]]].
      + left. constructor; assumption.
      + right. exists (S k), e, err. repeat split; auto; cbn; constructor; assumption. }
  destruct Hdec as [Hall|[k [e [err [Hk [He Hpre]]]]]].
  - exists (List.length d - 10)%nat. split; [lia|]. rewrite Hok by assumption. reflexivity.
  - exists k. split.
    + assert ((k < List.length old)%nat) by (apply nth_error_Some; congruence).
      subst old. rewrite length_firstn in *. lia.
    + rewrite (Hfail k e err) by assumption. reflexivity.
Qed.

Lemma removeOldLogs_keeps_last_ten_witness :
  let d := Fixtures.elevenLogs in
  let old := firstn (List.length d - 10) d in
  ((List.length d <= 10)%nat -> removeOldLogs None d = (None, d))
  /\ ((10 < List.length d)%nat -> Forall removable old ->
      removeOldLogs None d = (None, skipn (List.length d - 10) d)
      /\ List.length (snd (removeOldLogs None d)) = 10%nat)
  /\ (forall (k : nat) (e : DirEntry) (err : string),
        (10 < List.length d)%nat ->
        nth_error old k = Some e ->
        removeErr e = Some err ->
        Forall removable (firstn k old) ->
        removeOldLogs None d
        = (Some ("failed to remove old log entry: " ++ err)%string, skipn k d))
  /\ (exists k, (k <= List.length d - 10)%nat
                /\ snd (removeOldLogs None d) = skipn k d).
Proof.
  apply (removeOldLogs_keeps_last_ten Fixtures.elevenLogs).
  unfold Fixtures.elevenLogs, names. cbn.
  repeat (constructor; [cbn; intuition discriminate|]). constructor.
Defined.

End LogsFacts.

(** ** strings.EqualFold *)

Module FoldFacts.
Import Utf8 Fold.

Lemma byteOf_range (c : ascii) : 0 <= byteOf c < 256.
Proof.
  unfold byteOf. pose proof (N_ascii_bounded c). lia.
Qed.

Lemma bytes_range (s : string) : Forall isByte (bytes s).
Proof.
  induction s as [|c s IH]; cbn; constructor; auto. apply byteOf_range.
Qed.

Ltac letters :=
  change (chr "A") with 65 in *; change (chr "Z") with 90 in *;
  change (chr "a") with 97 in *; change (chr "z") with 122 in *;
  change (chr "k") with 107 in *; change (chr "s") with 115 in *;
  change (chr "K") with 75 in *; change (chr "S") with 83 in *;
  change (chr "F") with 70 in *; change (chr "f") with 102 in *;
  change (chr "0") with 48 in *; change (chr "9") with 57 in *;
  change (chr ":") with 58 in *; change (chr "-") with 45 in *.

Ltac tests :=
  repeat match goal with
  | |- context [?a <=? ?b] => destruct (Z.leb_spec a b)
  | |- context [?a <? ?b] => destruct (Z.ltb_spec a b)
  | |- context [?a =? ?b] => destruct (Z.eqb_spec a b)
  | H : context [?a <=? ?b] |- _ => destruct (Z.leb_spec a b)
  | H : context [?a <? ?b] |- _ => destruct (Z.ltb_spec a b)
  | H : context [?a =? ?b] |- _ => destruct (Z.eqb_spec a b)
  end.

(** Bitwise or against a power of two. *)
Lemma lor_lt_pow2 (a b n : Z) :
  0 <= a < 2 ^ n -> 0 <= b < 2 ^ n -> 0 <= n -> Z.lor a b < 2 ^ n.
Proof.
  intros Ha Hb Hn.
  assert (H0 : 0 <= Z.lor a b) by (apply Z.lor_nonneg; lia).
  destruct (Z.eq_dec (Z.lor a b) 0) as [E|E]; [rewrite E; lia|].
  apply Z.log2_lt_pow2; [lia|].
  rewrite Z.log2_lor by lia.
  destruct (Z.eq_dec a 0) as [Ea|Ea]; destruct (Z.eq_dec b 0) as [Eb|Eb]; subst.
  - cbn in E. congruence.
  - rewrite Z.max_r by (cbn; apply Z.log2_nonneg). apply Z.log2_lt_pow2; lia.
  - rewrite Z.max_l by (cbn; apply Z.log2_nonneg). apply Z.log2_lt_pow2; lia.
  - apply Z.max_lub_lt; apply Z.log2_lt_pow2; lia.
Qed.

Lemma lor_ge_pow2_l (a b n : Z) :
  0 <= b -> 0 <= n -> 2 ^ n <= a -> 2 ^ n <= Z.lor a b.
Proof.
  intros Hb Hn Ha.
  assert (0 < 2 ^ n) by (apply Z.pow_pos_nonneg; lia).
  assert (H0 : 0 <= Z.lor a b) by (apply Z.lor_nonneg; lia).
  destruct (Z.eq_dec (Z.lor a b) 0) as [E|E].
  - apply Z.lor_eq_0_iff in E. lia.
  - apply Z.log2_le_pow2; [lia|].
    rewrite Z.log2_lor by lia.
    apply Z.le_trans with (Z.log2 a); [apply Z.log2_le_pow2; lia|apply Z.le_max_l].
Qed.

Lemma lor_ge_pow2_r (a b n : Z) :
  0 <= a -> 0 <= n -> 2 ^ n <= b -> 2 ^ n <= Z.lor a b.
Proof. intros. rewrite Z.lor_comm. apply lor_ge_pow2_l; assumption. Qed.

Lemma lor_ascii (a b : Z) :
  isByte a -> isByte b ->
  (RuneSelf <=? Z.lor a b) = negb ((a <? 128) && (b <? 128)).
Proof.
  unfold isByte, RuneSelf. intros Ha Hb.
  destruct (Z.ltb_spec a 128); destruct (Z.ltb_spec b 128); cbn.
  - apply Z.leb_gt. apply (lor_lt_pow2 a b 7); lia.
  - apply Z.leb_le. apply (lor_ge_pow2_r a b 7); lia.
  - apply Z.leb_le. apply (lor_ge_pow2_l a b 7); lia.
  - apply Z.leb_le. apply (lor_ge_pow2_l a b 7); lia.
Qed.

(** A step of the fast path on two ASCII bytes: their lower cases are
    equal and the rest [c] of the comparison holds. *)
Lemma ascii_pair (sr tr : Z) (c : bool) :
  0 <= sr < 128 -> 0 <= tr < 128 ->
  (if tr =? sr then c
   else let '(sr, tr) := if tr <? sr then (tr, sr) else (sr, tr) in
        if (chr "A" <=? sr) && (sr <=? chr "Z") && (tr =? sr + chr "a" - chr "A")
        then c else false)
  = (Spec.lower sr =? Spec.lower tr) && c.
Proof.
  intros Hs Ht. unfold Spec.lower. letters.
  destruct (Z.eqb_spec tr sr) as [E|E].
  - subst. rewrite Z.eqb_refl. reflexivity.
  - destruct (Z.ltb_spec tr sr); tests; cbn in *;
      first [reflexivity | exfalso; lia].
Qed.

Lemma land_mask_nonneg (a m : Z) : 0 <= m -> 0 <= Z.land a m.
Proof. intros. apply Z.land_nonneg. right. assumption. Qed.

Lemma piece_nonneg (a m k : Z) : 0 <= m -> 0 <= Z.shiftl (Z.land a m) k.
Proof. intros. apply Z.shiftl_nonneg. apply land_mask_nonneg. assumption. Qed.

(** The bits of [a] under the mask [2^n - 1], shifted left by [k]. *)
Lemma piece_value (a n k : Z) :
  0 <= n -> 0 <= k ->
  Z.shiftl (Z.land a (Z.ones n)) k = (a mod 2 ^ n) * 2 ^ k.
Proof.
  intros. rewrite Z.shiftl_mul_pow2 by assumption.
  rewrite Z.land_ones by assumption. reflexivity.
Qed.

Ltac euclid a b :=
  pose proof (Z.div_mod a b ltac:(lia));
  pose proof (Z.mod_pos_bound a b ltac:(lia)).

Ltac bad := cbn [orb fst]; lia.


(** In the branch of [first] that answers [x]: compute what depends on
    [x] alone, then pass the length test and the tests on the
    continuation bytes. *)
Ltac known x :=
  let b := eval vm_compute in (as_ <=? x) in
  change (as_ <=? x) with b;
  let o := eval vm_compute in (Z.odd x) in
  change (Z.odd x) with o;
  let n := eval vm_compute in (Z.to_nat (Z.land x 7)) in
  change (Z.to_nat (Z.land x 7)) with n;
  let r := eval vm_compute in (acceptRanges (Z.shiftr x 4)) in
  change (acceptRanges (Z.shiftr x 4)) with r;
  cbv iota zeta; cbn [fst snd Nat.leb];
  change locb with 128 in *; change hicb with 191 in *.

Ltac pass :=
  repeat match goal with
  | |- context [(?a <? ?b)%nat] => destruct (Nat.ltb_spec a b); [bad|]
  | |- context [(?a <? ?b) || (?c <? ?d)] =>
      destruct (Z.ltb_spec a b); [bad|];
      destruct (Z.ltb_spec c d); [bad|]; cbn [orb]
  end; cbn [fst].

Ltac pow2 :=
  change (2 ^ 3) with 8 in *; change (2 ^ 4) with 16 in *;
  change (2 ^ 5) with 32 in *; change (2 ^ 6) with 64 in *;
  change (2 ^ 7) with 128 in *; change (2 ^ 12) with 4096 in *;
  change (2 ^ 18) with 262144 in *.

Lemma decode_high (s0 : Z) (rest : list Z) :
  isByte s0 -> 128 <= s0 ->
  128 <= fst (DecodeRuneInString (s0 :: rest)).
Proof.
  unfold isByte. intros Hb Hh.
  unfold DecodeRuneInString, first. change RuneError with 65533.
  set (s := s0 :: rest).
  assert (N1 : 0 <= Z.land (at_ s 1) maskx) by (apply land_mask_nonneg; cbv; discriminate).
  assert (N2 : 0 <= Z.land (at_ s 2) maskx) by (apply land_mask_nonneg; cbv; discriminate).
  assert (N3 : 0 <= Z.land (at_ s 3) maskx) by (apply land_mask_nonneg; cbv; discriminate).
  assert (P1 : forall k, 0 <= Z.shiftl (Z.land (at_ s 1) maskx) k)
    by (intros; apply piece_nonneg; cbv; discriminate).
  assert (P2 : forall k, 0 <= Z.shiftl (Z.land (at_ s 2) maskx) k)
    by (intros; apply piece_nonneg; cbv; discriminate).
  assert (two : forall b1 : Z, 0 <= b1 -> 194 <= s0 < 224 ->
                2 ^ 7 <= Z.lor (Z.shiftl (Z.land s0 mask2) 6) b1).
  { intros b1 Hb1 Hr. apply lor_ge_pow2_l; [assumption|lia|].
    change mask2 with (Z.ones 5). rewrite piece_value by lia. pow2.
    euclid s0 32. lia. }
  assert (three : forall b1 b2 : Z, 0 <= b1 -> 0 <= b2 -> 225 <= s0 < 240 ->
                  2 ^ 7 <= Z.lor (Z.lor (Z.shiftl (Z.land s0 mask3) 12) b1) b2).
  { intros b1 b2 Hb1 Hb2 Hr. apply lor_ge_pow2_l; [assumption|lia|].
    apply lor_ge_pow2_l; [assumption|lia|].
    change mask3 with (Z.ones 4). rewrite piece_value by lia. pow2.
    euclid s0 16. lia. }
  assert (four : forall b1 b2 b3 : Z, 0 <= b1 -> 0 <= b2 -> 0 <= b3 -> 241 <= s0 < 248 ->
                 2 ^ 7 <= Z.lor (Z.lor (Z.lor (Z.shiftl (Z.land s0 mask4) 18) b1) b2) b3).
  { intros b1 b2 b3 Hb1 Hb2 Hb3 Hr. apply lor_ge_pow2_l; [assumption|lia|].
    apply lor_ge_pow2_l; [assumption|lia|]. apply lor_ge_pow2_l; [assumption|lia|].
    change mask4 with (Z.ones 3). rewrite piece_value by lia. pow2.
    euclid s0 8. lia. }
  destruct (Z.ltb_spec s0 128); [exfalso; lia|].
  destruct (Z.ltb_spec s0 194); [known xx; bad|].
  destruct (Z.ltb_spec s0 224).
  { known s1. pass. apply two; [assumption|lia]. }
  destruct (Z.eqb_spec s0 224).
  { known s2. pass. change 128 with (2 ^ 7).
    apply lor_ge_pow2_l; [assumption|lia|].
    apply lor_ge_pow2_r; [apply piece_nonneg; cbv; discriminate|lia|].
    change maskx with (Z.ones 6). rewrite piece_value by lia. pow2.
    euclid (at_ s 1) 64. lia. }
  destruct (Z.ltb_spec s0 237).
  { known s3. pass. apply three; auto; lia. }
  destruct (Z.eqb_spec s0 237).
  { known s4. pass. apply three; auto; lia. }
  destruct (Z.ltb_spec s0 240).
  { known s3. pass. apply three; auto; lia. }
  destruct (Z.eqb_spec s0 240).
  { known s5. pass. change 128 with (2 ^ 7).
    apply lor_ge_pow2_l; [assumption|lia|].
    apply lor_ge_pow2_l; [auto|lia|].
    apply lor_ge_pow2_r; [apply piece_nonneg; cbv; discriminate|lia|].
    change maskx with (Z.ones 6). rewrite piece_value by lia. pow2.
    euclid (at_ s 1) 64. lia. }
  destruct (Z.ltb_spec s0 244).
  { known s6. pass. apply four; auto; lia. }
  destruct (Z.eqb_spec s0 244).
  { known s7. pass. apply four; auto; lia. }
  known xx. bad.
Qed.

Lemma asciiFold_upper (a : Z) : 65 <= a <= 90 -> asciiFold a = a + 32.
Proof. intros H. unfold asciiFold. letters. tests; cbn; lia. Qed.

Lemma asciiFold_lower (a : Z) :
  97 <= a <= 122 -> a <> 107 -> a <> 115 -> asciiFold a = a - 32.
Proof. intros H Hk Hs. unfold asciiFold. letters. tests; cbn; lia. Qed.

Lemma asciiFold_other (a : Z) :
  ~ 65 <= a <= 90 -> ~ 97 <= a <= 122 -> asciiFold a = a.
Proof. intros H H'. unfold asciiFold. letters. tests; cbn; lia. Qed.

Lemma plain_inv (a : Z) :
  Spec.plain a = true -> 0 <= a < 128 /\ a <> 75 /\ a <> 107 /\ a <> 83 /\ a <> 115.
Proof.
  unfold Spec.plain. letters. intros H.
  repeat rewrite andb_true_iff in H. rewrite negb_true_iff in H.
  repeat rewrite orb_false_iff in H.
  destruct H as [[H0 H1] [[[Hk1 Hk2] Hs1] Hs2]].
  apply Z.leb_le in H0. apply Z.ltb_lt in H1.
  apply Z.eqb_neq in Hk1, Hk2, Hs1, Hs2. lia.
Qed.

Lemma asciiFold_plain (a : Z) :
  Spec.plain a = true ->
  0 <= asciiFold a < 128
  /\ (asciiFold a = a \/ (asciiFold a <> a /\ asciiFold (asciiFold a) = a)).
Proof.
  intros H. apply plain_inv in H.
  destruct (Z_le_dec 65 a) as [U1|U1]; [destruct (Z_le_dec a 90) as [U2|U2]|].
  - rewrite asciiFold_upper by lia. split; [lia|]. right. split; [lia|].
    rewrite asciiFold_lower by lia. lia.
  - destruct (Z_le_dec 97 a) as [L1|L1]; [destruct (Z_le_dec a 122) as [L2|L2]|].
    + rewrite asciiFold_lower by lia. split; [lia|]. right. split; [lia|].
      rewrite asciiFold_upper by lia. lia.
    + rewrite asciiFold_other by lia. split; [lia|]. left. reflexivity.
    + rewrite asciiFold_other by lia. split; [lia|]. left. reflexivity.
  - rewrite asciiFold_other by lia. split; [lia|]. left. reflexivity.
Qed.

Section Folding.
Variable unicodeFold : Z -> Z.

Lemma SimpleFold_ascii (a : Z) : 0 <= a < 128 -> SimpleFold unicodeFold a = asciiFold a.
Proof.
  intros H. unfold SimpleFold, MaxRune.
  destruct (Z.ltb_spec a 0); [lia|]. destruct (Z.ltb_spec 1114111 a); [lia|].
  destruct (Z.ltb_spec a 128); [reflexivity|lia].
Qed.

(** A rune outside ASCII folds to no plain ASCII letter. *)
Lemma walk_plain (a r : Z) :
  Spec.plain a = true -> 128 <= r ->
  walkOrbit unicodeFold orbitBound (SimpleFold unicodeFold a) a r = a.
Proof.
  intros Hp Hr.
  assert (Ha : 0 <= a < 128).
  { unfold Spec.plain in Hp. repeat rewrite andb_true_iff in Hp.
    destruct Hp as [[H0 H1] _]. apply Z.leb_le in H0. apply Z.ltb_lt in H1. lia. }
  destruct (asciiFold_plain a Hp) as [Hf [Hsame|[Hne Hback]]].
  - rewrite SimpleFold_ascii by assumption. rewrite Hsame.
    cbn [orbitBound walkOrbit]. rewrite Z.eqb_refl. reflexivity.
  - rewrite SimpleFold_ascii by assumption.
    cbn [orbitBound walkOrbit].
    destruct (Z.eqb_spec (asciiFold a) a); [contradiction|].
    destruct (Z.ltb_spec (asciiFold a) r); [|lia]. cbn [negb andb].
    rewrite SimpleFold_ascii by assumption. rewrite Hback.
    rewrite Z.eqb_refl. reflexivity.
Qed.

Lemma runesFold_high_plain (r a : Z) :
  128 <= r -> Spec.plain a = true ->
  runesFold unicodeFold r a = false /\ runesFold unicodeFold a r = false.
Proof.
  intros Hr Hp.
  assert (Ha : 0 <= a < 128).
  { unfold Spec.plain in Hp. repeat rewrite andb_true_iff in Hp.
    destruct Hp as [[H0 H1] _]. apply Z.leb_le in H0. apply Z.ltb_lt in H1. lia. }
  unfold runesFold, RuneSelf. split.
  - destruct (Z.eqb_spec a r); [lia|].
    destruct (Z.ltb_spec a r); [|lia].
    destruct (Z.ltb_spec r 128); [lia|].
    rewrite walk_plain by assumption. apply Z.eqb_neq. lia.
  - destruct (Z.eqb_spec r a); [lia|].
    destruct (Z.ltb_spec r a); [lia|].
    destruct (Z.ltb_spec r 128); [lia|].
    rewrite walk_plain by assumption. apply Z.eqb_neq. lia.
Qed.

Lemma decode_ascii (s0 : Z) (rest : list Z) :
  0 <= s0 < 128 -> DecodeRuneInString (s0 :: rest) = (s0, 1%nat).
Proof.
  intros H. unfold DecodeRuneInString, first.
  destruct (Z.ltb_spec s0 128); [reflexivity|lia].
Qed.

(** [hasUnicode] is entered at a byte pair with one byte outside ASCII; if
    the other string is plain ASCII the first round already fails. *)
Lemma foldRunes_plain_r (n : nat) (s0 : Z) (s : list Z) (t0 : Z) (t : list Z) :
  isByte s0 -> 128 <= s0 -> Spec.plain t0 = true ->
  foldRunes unicodeFold n (s0 :: s) (t0 :: t) = false.
Proof.
  intros Hb Hh Hp. destruct n as [|n]; [reflexivity|].
  cbn [foldRunes].
  pose proof (decode_high s0 s Hb Hh) as Hd.
  destruct (DecodeRuneInString (s0 :: s)) as [sr size]. cbn [fst] in Hd.
  assert (Ha : 0 <= t0 < 128).
  { unfold Spec.plain in Hp. repeat rewrite andb_true_iff in Hp.
    destruct Hp as [[H0 H1] _]. apply Z.leb_le in H0. apply Z.ltb_lt in H1. lia. }
  unfold RuneSelf. destruct (Z.ltb_spec t0 128); [|lia].
  rewrite (proj1 (runesFold_high_plain sr t0 Hd Hp)). reflexivity.
Qed.

Lemma foldRunes_plain_l (n : nat) (s0 : Z) (s : list Z) (t0 : Z) (t : list Z) :
  isByte t0 -> 128 <= t0 -> Spec.plain s0 = true ->
  foldRunes unicodeFold n (s0 :: s) (t0 :: t) = false.
Proof.
  intros Hb Hh Hp. destruct n as [|n]; [reflexivity|].
  cbn [foldRunes].
  assert (Ha : 0 <= s0 < 128).
  { unfold Spec.plain in Hp. repeat rewrite andb_true_iff in Hp.
    destruct Hp as [[H0 H1] _]. apply Z.leb_le in H0. apply Z.ltb_lt in H1. lia. }
  rewrite decode_ascii by assumption.
  unfold RuneSelf. destruct (Z.ltb_spec t0 128); [lia|].
  pose proof (decode_high t0 t Hb Hh) as Hd.
  destruct (DecodeRuneInString (t0 :: t)) as [tr size]. cbn [fst] in Hd.
  rewrite (proj2 (runesFold_high_plain tr s0 Hd Hp)). reflexivity.
Qed.

Lemma lower_cases (b : Z) :
  (65 <= b <= 90 /\ Spec.lower b = b + 32) \/ (~ 65 <= b <= 90 /\ Spec.lower b = b).
Proof. unfold Spec.lower. letters. tests; cbn; lia. Qed.

(** Where one side is plain ASCII, or both are ASCII, [EqualFold] is
    equality up to the case of ASCII letters. *)
Lemma equalFoldFrom_lower (x : list Z) :
  forall y : list Z,
  Forall isByte x -> Forall isByte y ->
  Spec.plainBytes x \/ Spec.plainBytes y \/ (Spec.asciiBytes x /\ Spec.asciiBytes y) ->
  (equalFoldFrom unicodeFold x y = true <-> map Spec.lower x = map Spec.lower y).
Proof.
  induction x as [|sr s IH]; intros [|tr t] Hx Hy Hc; cbn [equalFoldFrom map].
  - tauto.
  - split; discriminate.
  - split; discriminate.
  - inversion Hx as [|? ? Hsr Hs]; inversion Hy as [|? ? Htr Ht]; subst.
    assert (Htail : Spec.plainBytes s \/ Spec.plainBytes t \/ (Spec.asciiBytes s /\ Spec.asciiBytes t)).
    { unfold Spec.plainBytes, Spec.asciiBytes in *.
      destruct Hc as [H|[H|[H H']]].
      - left. inversion H; assumption.
      - right. left. inversion H; assumption.
      - right. right. inversion H; inversion H'; split; assumption. }
    specialize (IH t Hs Ht Htail).
    rewrite lor_ascii by assumption.
    unfold isByte in Hsr, Htr.
    destruct (Z.ltb_spec sr 128) as [Ls|Ls]; destruct (Z.ltb_spec tr 128) as [Lt|Lt];
      cbn [andb negb].
    + rewrite ascii_pair by lia.
      destruct (Z.eqb_spec (Spec.lower sr) (Spec.lower tr)) as [E|E]; cbn [andb].
      * rewrite IH. split; [intros H; congruence|intros H; inversion H; reflexivity].
      * split; [discriminate|intros H; inversion H; contradiction].
    + (* only [tr] is outside ASCII: [sr :: s] is the plain side *)
      assert (Hp : Spec.plain sr = true).
      { unfold Spec.plainBytes, Spec.asciiBytes in Hc. destruct Hc as [H|[H|[H H']]].
        - inversion H; assumption.
        - inversion H as [|? ? Hp _]; subst. apply plain_inv in Hp. lia.
        - inversion H' as [|? ? Hp _]; subst. lia. }
      rewrite foldRunes_plain_l by (unfold isByte; auto; lia).
      split; [discriminate|]. intros H. inversion H as [[H1 H2]].
      destruct (lower_cases sr) as [[? ?]|[? ?]];
        destruct (lower_cases tr) as [[? ?]|[? ?]]; lia.
    + assert (Hp : Spec.plain tr = true).
      { unfold Spec.plainBytes, Spec.asciiBytes in Hc. destruct Hc as [H|[H|[H H']]].
        - inversion H as [|? ? Hp _]; subst. apply plain_inv in Hp. lia.
        - inversion H; assumption.
        - inversion H as [|? ? Hp _]; subst. lia. }
      rewrite foldRunes_plain_r by (unfold isByte; auto; lia).
      split; [discriminate|]. intros H. inversion H as [[H1 H2]].
      destruct (lower_cases sr) as [[? ?]|[? ?]];
        destruct (lower_cases tr) as [[? ?]|[? ?]]; lia.
    + exfalso. unfold Spec.plainBytes, Spec.asciiBytes in Hc. destruct Hc as [H|[H|[H H']]].
      * inversion H as [|? ? Hp _]; subst. apply plain_inv in Hp. lia.
      * inversion H as [|? ? Hp _]; subst. apply plain_inv in Hp. lia.
      * inversion H as [|? ? Hp _]; subst. lia.
Qed.

End Folding.

End FoldFacts.

(** ** The identity test of the callback *)

Module Matcher.
Import Clock Doorbell DoorbellFacts FoldFacts.

Lemma hexByte_spec (b : Z) :
  Spec.hexByte b = true
  <-> (48 <= b <= 57 \/ 65 <= b <= 70 \/ 97 <= b <= 102 \/ b = 58 \/ b = 45).
Proof.
  unfold Spec.hexByte. letters.
  repeat rewrite orb_true_iff. repeat rewrite andb_true_iff.
  repeat rewrite Z.leb_le. repeat rewrite Z.eqb_eq. tauto.
Qed.

Lemma hexByte_plain (b : Z) : Spec.hexByte b = true -> Spec.plain b = true.
Proof.
  rewrite hexByte_spec. unfold Spec.plain. letters. intros H.
  repeat rewrite andb_true_iff. rewrite negb_true_iff.
  repeat rewrite orb_false_iff. repeat rewrite Z.eqb_neq.
  rewrite Z.leb_le, Z.ltb_lt. lia.
Qed.

Lemma hexText_plain (s : string) : Spec.hexText s = true -> Spec.plainBytes (bytes s).
Proof.
  unfold Spec.hexText, Spec.plainBytes. intros H.
  apply Forall_forall. intros b Hb.
  apply hexByte_plain. rewrite forallb_forall in H. apply H. exact Hb.
Qed.

Lemma isASCII_bytes (s : string) : Spec.isASCII s -> Spec.asciiBytes (bytes s).
Proof.
  unfold Spec.isASCII, Spec.asciiBytes. intros H.
  pose proof (bytes_range s) as Hr. rewrite Forall_forall in *.
  intros b Hb. specialize (H b Hb). specialize (Hr b Hb). unfold isByte in Hr. lia.
Qed.

(** Bytes with equal lower cases are both of an address text or neither. *)
Lemma hexByte_lower (a b : Z) :
  Spec.lower a = Spec.lower b -> Spec.hexByte a = Spec.hexByte b.
Proof.
  intros H. apply eq_true_iff_eq. rewrite !hexByte_spec.
  destruct (lower_cases a) as [[Ha Ea]|[Ha Ea]];
    destruct (lower_cases b) as [[Hb Eb]|[Hb Eb]];
    rewrite Ea, Eb in H; clear Ea Eb; lia.
Qed.

Lemma hexText_sameUpToCase (x y : string) :
  Spec.sameUpToCase x y -> Spec.hexText x = Spec.hexText y.
Proof.
  unfold Spec.sameUpToCase, Spec.hexText.
  generalize (bytes x) (bytes y). intros l.
  induction l as [|a l IH]; intros [|b m] H; cbn in *; try discriminate; auto.
  inversion H as [[Hab Hlm]]. rewrite (hexByte_lower a b Hab), (IH m Hlm). reflexivity.
Qed.

(** [EqualFold] where one side is an address text, or both are ASCII. *)
Lemma EqualFold_sameUpToCase (unicodeFold : Z -> Z) (x y : string) :
  Spec.hexText x = true \/ Spec.hexText y = true \/ (Spec.isASCII x /\ Spec.isASCII y) ->
  (Fold.EqualFold unicodeFold x y = true <-> Spec.sameUpToCase x y).
Proof.
  intros H. unfold Fold.EqualFold, Spec.sameUpToCase.
  apply equalFoldFrom_lower; try apply bytes_range.
  destruct H as [H|[H|[H H']]].
  - left. apply hexText_plain. exact H.
  - right. left. apply hexText_plain. exact H.
  - right. right. split; apply isASCII_bytes; assumption.
Qed.







End Matcher.

(** ** Concurrent deliveries *)

Module MutexFacts.
Import Clock Doorbell Mutex ClockFacts DoorbellFacts.

Lemma tally_update {A} (p : A -> bool) (i : nat) (x y : A) (l : list A) :
  nth_error l i = Some x ->
  (tally p (update i y l) + (if p x then 1 else 0)
   = tally p l + (if p y then 1 else 0))%nat.
Proof.
  unfold tally. revert i. induction l as [|z l IH]; intros [|i] H; cbn in *; try discriminate.
  - inversion H; subst. destruct (p x), (p y); cbn; lia.
  - specialize (IH i H). destruct (p z); cbn; lia.
Qed.

Lemma tally_le {A} (p q : A -> bool) (l : list A) :
  (forall x, p x = true -> q x = true) -> (tally p l <= tally q l)%nat.
Proof.
  intros H. unfold tally. induction l as [|z l IH]; cbn; [lia|].
  destruct (p z) eqn:E; [rewrite (H z E)|destruct (q z)]; cbn; lia.
Qed.

Lemma tally_zero {A} (p : A -> bool) (l : list A) :
  tally p l = 0%nat <-> Forall (fun x => p x = false) l.
Proof.
  unfold tally. induction l as [|z l IH]; cbn.
  - split; [constructor|reflexivity].
  - destruct (p z) eqn:E; cbn.
    + split; [discriminate|]. intros H. inversion H; congruence.
    + rewrite IH. split; [intros H; constructor; assumption|intros H; inversion H; assumption].
Qed.

Lemma tally_pos {A} (p : A -> bool) (i : nat) (x : A) (l : list A) :
  nth_error l i = Some x -> p x = true -> (1 <= tally p l)%nat.
Proof.
  unfold tally. revert i. induction l as [|z l IH]; intros [|i] H Hp; cbn in *; try discriminate.
  - inversion H; subst. rewrite Hp. cbn. lia.
  - specialize (IH i H Hp). destruct (p z); cbn; lia.
Qed.

Lemma Forall_update {A} (P : A -> Prop) (i : nat) (y : A) (l : list A) :
  Forall P l -> P y -> Forall P (update i y l).
Proof.
  intros H Hy. revert i. induction H as [|z l Hz Hl IH]; intros [|i]; cbn;
    constructor; auto.
Qed.

Lemma Forall_nth {A} (P : A -> Prop) (i : nat) (x : A) (l : list A) :
  Forall P l -> nth_error l i = Some x -> P x.
Proof.
  intros H Hn. rewrite Forall_forall in H. apply H. eapply nth_error_In. exact Hn.
Qed.

Lemma accepted_snoc_debug (evs : list Event) (msg mac : string) :
  accepted (evs ++ [Debug msg mac]) = accepted evs.
Proof. unfold accepted. rewrite existsb_app. cbn. rewrite !orb_false_r. reflexivity. Qed.

Lemma accepted_nil (evs : list Event) : accepted (evs ++ []) = accepted evs.
Proof. rewrite app_nil_r. reflexivity. Qed.

Section PoolFacts.

Variable unicodeFold : Z -> Z.
Variable conf : Config.
Variable catIconPath : string.
(** The window of the clock readings starts at [from]. *)
Variable from : Z.
Hypothesis cooldown_range : isDuration (DetectionTimeout conf).

Local Abbreviation step := (step unicodeFold conf catIconPath).
Local Abbreviation runSchedule := (runSchedule unicodeFold conf catIconPath).
Local Abbreviation move := (move unicodeFold conf catIconPath).

Local Abbreviation inWindow := (inWindow conf from).
Local Abbreviation sound := (sound unicodeFold conf from).
Local Abbreviation Inv := (Inv unicodeFold conf from).

Lemma early_not_won (l : list Thread) :
  Forall sound l -> Forall (fun t => early t = true) l -> tally won l = 0%nat.
Proof.
  intros Hs He. apply tally_zero. rewrite Forall_forall in *.
  intros t Ht. specialize (Hs t Ht). specialize (He t Ht).
  destruct Hs as [_ [_ [_ Hacc]]]. unfold won, early, returning in *.
  destruct (pc t); try discriminate; apply Hacc; reflexivity.
Qed.

Lemma early_not_accepting_others (l : list Thread) :
  tally inCritical l = 1%nat -> (tally atAccepting l <= 1)%nat.
Proof.
  intros H. rewrite <- H. apply tally_le. intros t. unfold atAccepting, inCritical.
  destruct (pc t); cbn; congruence.
Qed.

Lemma sound_goto (t : Thread) (p : PC) (evs : list Event) :
  sound t ->
  (returning (goto t p evs) = false -> accepted (trace t ++ evs) = false) ->
  sound (goto t p evs).
Proof.
  intros [Hsc [Hnc [Hmatch _]]] H. unfold Mutex.sound. cbn [goto world payload trace].
  split; [exact Hsc|]. split; [exact Hnc|]. split; assumption.
Qed.

Ltac replaced t Hpc Hi Tc Tw Ta p evs :=
  specialize (Tc (goto t p evs) _ Hi); specialize (Tw (goto t p evs) _ Hi);
  specialize (Ta (goto t p evs) _ Hi);
  unfold inCritical, won, atAccepting in Tc, Tw, Ta;
  rewrite Hpc in Tc, Tw, Ta;
  cbn [goto pc trace critical] in Tc, Tw, Ta;
  fold inCritical in Tc; fold won in Tw; fold atAccepting in Ta;
  cbn [threads locked Mutex.lastDetected goto].

Lemma Inv_step (i : nat) (st : Shared) : Inv st -> Inv (step i st).
Proof.
  intros [Hs [Hm Hp]]. unfold Mutex.step.
  destruct (nth_error (threads st) i) as [t|] eqn:Hi; [|repeat split; assumption].
  pose proof (Forall_nth _ _ _ _ Hs Hi) as Hsound.
  pose proof Hsound as [Hsc [Hnc [Hmatch Hacc]]].
  pose proof (tally_update inCritical i t) as Tc.
  pose proof (tally_update won i t) as Tw.
  pose proof (tally_update atAccepting i t) as Ta.
  pose proof (tally_pos inCritical i t _ Hi) as Pc.
  pose proof (tally_pos atAccepting i t _ Hi) as Pa.
  unfold returning in Hacc.
  unfold Mutex.move. destruct (pc t) eqn:Hpc.
  - (* Received *)
    rewrite Hmatch. unfold Mutex.Inv.
    replaced t Hpc Hi Tc Tw Ta WantLock [Debug "Received beacon from device" (payload t)].
    rewrite accepted_snoc_debug in Tw.
    split; [|split].
    + apply Forall_update; [assumption|]. apply sound_goto; [assumption|].
      intros _. rewrite accepted_snoc_debug. apply Hacc. reflexivity.
    + lia.
    + destruct Hp as [[Hz He]|[Hn [Hw Ha]]].
      * left. split; [first [assumption|reflexivity]|]. apply Forall_update; [assumption|reflexivity].
      * right. split; [first [assumption|reflexivity]|]. destruct (accepted (trace t)); split; lia.
  - (* WantLock *)
    destruct (locked st) eqn:Hl; [repeat split; try assumption; rewrite Hl; assumption|].
    unfold Mutex.Inv.
    replaced t Hpc Hi Tc Tw Ta Holding (@nil Event).
    rewrite accepted_nil in Tw.
    split; [|split].
    + apply Forall_update; [assumption|]. apply sound_goto; [assumption|].
      intros _. rewrite accepted_nil. apply Hacc. reflexivity.
    + lia.
    + destruct Hp as [[Hz He]|[Hn [Hw Ha]]].
      * left. split; [first [assumption|reflexivity]|]. apply Forall_update; [assumption|reflexivity].
      * right. split; [first [assumption|reflexivity]|]. destruct (accepted (trace t)); split; lia.
  - (* Holding *)
    unfold Mutex.Inv.
    destruct Hp as [[Hz He]|[Hn [Hw Ha]]].
    + rewrite Hz, Since_zeroTime by apply Hsc.
      rewrite timeout_le_maxDuration by assumption.
      replaced t Hpc Hi Tc Tw Ta Accepting (@nil Event).
      split; [|split].
      * apply Forall_update; [assumption|]. apply sound_goto; [assumption|].
        intros _. rewrite accepted_nil. apply Hacc. reflexivity.
      * lia.
      * left. split; [first [assumption|reflexivity]|]. apply Forall_update; [assumption|reflexivity].
    + destruct Hn as [r [Hr Hn]].
      rewrite Hn, Since_Now by (apply Hsc || apply Hr).
      destruct (Z.leb_spec (DetectionTimeout conf)
                  (monotonic (sinceClock (world t)) - monotonic r));
        [destruct Hsc as [_ Hsc]; destruct Hr as [_ Hr]; lia|].
      replaced t Hpc Hi Tc Tw Ta Ignoring (@nil Event).
      rewrite accepted_nil in Tw.
      split; [|split].
      * apply Forall_update; [assumption|]. apply sound_goto; [assumption|].
        intros _. rewrite accepted_nil. apply Hacc. reflexivity.
      * lia.
      * right. split; [exists r; split; [exact Hr|reflexivity]|].
        destruct (accepted (trace t)); split; lia.
  - (* Accepting *)
    unfold Mutex.Inv.
    assert (Pa' := Pa ltac:(unfold atAccepting; rewrite Hpc; reflexivity)).
    replaced t Hpc Hi Tc Tw Ta Alerting (@nil Event).
    split; [|split].
    + apply Forall_update; [assumption|]. apply sound_goto; [assumption|].
      intros _. rewrite accepted_nil. apply Hacc. reflexivity.
    + lia.
    + right. split; [exists (nowClock (world t)); split; [exact Hnc|reflexivity]|].
      destruct Hp as [[Hz He]|[Hn [Hw Ha]]]; [|lia].
      pose proof (early_not_won _ Hs He) as Hw0.
      assert (Hc1 : tally inCritical (threads st) = 1%nat).
      { assert (Pc' := Pc ltac:(unfold inCritical; rewrite Hpc; reflexivity)).
        destruct (locked st); lia. }
      pose proof (early_not_accepting_others _ Hc1) as Ha1.
      rewrite (Hacc eq_refl) in Tw. split; lia.
  - (* Alerting *)
    unfold Mutex.Inv.
    replaced t Hpc Hi Tc Tw Ta Leaving (alert catIconPath (world t) (payload t)).
    rewrite accepted_alert in Tw.
    split; [|split].
    + apply Forall_update; [assumption|]. apply sound_goto; [assumption|].
      unfold returning. cbn. discriminate.
    + lia.
    + destruct Hp as [[Hz He]|[Hn [Hw Ha]]].
      * exfalso. pose proof (Forall_nth _ _ _ _ He Hi) as E.
        unfold early in E. rewrite Hpc in E. discriminate.
      * right. split; [first [assumption|reflexivity]|]. split; lia.
  - (* Ignoring *)
    unfold Mutex.Inv.
    replaced t Hpc Hi Tc Tw Ta Leaving [Debug "Ignoring beacon from device" (payload t)].
    rewrite accepted_snoc_debug in Tw.
    split; [|split].
    + apply Forall_update; [assumption|]. apply sound_goto; [assumption|].
      unfold returning. cbn. discriminate.
    + lia.
    + destruct Hp as [[Hz He]|[Hn [Hw Ha]]].
      * exfalso. pose proof (Forall_nth _ _ _ _ He Hi) as E.
        unfold early in E. rewrite Hpc in E. discriminate.
      * right. split; [first [assumption|reflexivity]|]. destruct (accepted (trace t)); split; lia.
  - (* Leaving *)
    unfold Mutex.Inv.
    replaced t Hpc Hi Tc Tw Ta Done (@nil Event).
    rewrite accepted_nil in Tw.
    split; [|split].
    + apply Forall_update; [assumption|]. apply sound_goto; [assumption|].
      unfold returning. cbn. discriminate.
    + assert (Pc' := Pc ltac:(unfold inCritical; rewrite Hpc; reflexivity)).
      destruct (locked st); lia.
    + destruct Hp as [[Hz He]|[Hn [Hw Ha]]].
      * exfalso. pose proof (Forall_nth _ _ _ _ He Hi) as E.
        unfold early in E. rewrite Hpc in E. discriminate.
      * right. split; [first [assumption|reflexivity]|]. destruct (accepted (trace t)); split; lia.
  - (* Done *)
    repeat split; assumption.
Qed.

Lemma Inv_runSchedule (sched : list nat) :
  forall st, Inv st -> Inv (runSchedule sched st).
Proof.
  induction sched as [|i sched IH]; intros st H; cbn; [assumption|].
  apply IH. apply Inv_step. assumption.
Qed.

Lemma Inv_spawn (ds : list (World * string)) :
  Forall (fun d => inWindow (sinceClock (fst d)) /\ inWindow (nowClock (fst d))
                   /\ Fold.EqualFold unicodeFold (snd d) (TargetMAC conf) = true) ds ->
  Inv (spawn ds).
Proof.
  intros H. unfold Mutex.Inv, spawn. cbn [threads locked Mutex.lastDetected].
  split; [|split].
  - induction H as [|d ds [H1 [H2 H3]] _ IH]; cbn; constructor; [|assumption].
    unfold Mutex.sound. cbn. auto.
  - apply tally_zero. induction ds as [|d ds IH]; cbn; constructor.
    + reflexivity.
    + apply IH. inversion H; assumption.
  - left. split; [reflexivity|].
    clear H. induction ds as [|d ds IH]; cbn; constructor; auto.
Qed.

(** At most one thread has accepted, and exactly one once all returned. *)
Lemma Inv_at_most_one (st : Shared) : Inv st -> (acceptedCount st <= 1)%nat.
Proof.
  intros [Hs [_ Hp]]. unfold acceptedCount.
  change (tally (fun t => accepted (trace t)) (threads st) <= 1)%nat.
  destruct Hp as [[_ He]|[_ [Hw _]]].
  - pose proof (early_not_won _ Hs He) as H0.
    assert (tally (fun t => accepted (trace t)) (threads st) <= tally won (threads st))%nat.
    { apply tally_le. intros t Ht. unfold won. destruct (pc t); auto. }
    lia.
  - rewrite <- Hw. apply tally_le. intros t Ht. unfold won. destruct (pc t); auto.
Qed.

Lemma Inv_all_done (st : Shared) :
  Inv st -> threads st <> [] -> allDone st = true -> acceptedCount st = 1%nat.
Proof.
  intros [Hs [_ Hp]] Hne Hd. unfold allDone in Hd. rewrite forallb_forall in Hd.
  destruct Hp as [[_ He]|[_ [Hw _]]].
  - exfalso. destruct (threads st) as [|t l]; [congruence|].
    inversion He as [|? ? E _]; subst.
    specialize (Hd t (or_introl eq_refl)). unfold finished in Hd. unfold early in E.
    destruct (pc t); discriminate.
  - rewrite <- Hw. unfold acceptedCount, tally. f_equal.
    apply filter_ext_in. intros t Ht. specialize (Hd t Ht).
    unfold finished in Hd. unfold won. destruct (pc t); try discriminate. reflexivity.
Qed.

(** No deadlock: while a thread has not returned, some thread can move. *)
Lemma tally_pick {A} (p : A -> bool) (l : list A) :
  (1 <= tally p l)%nat -> exists i x, nth_error l i = Some x /\ p x = true.
Proof.
  unfold tally. induction l as [|z l IH]; cbn; [lia|].
  destruct (p z) eqn:E.
  - intros _. exists 0%nat, z. auto.
  - intros H. destruct (IH H) as [i [x [Hi Hx]]]. exists (S i), x. auto.
Qed.

Lemma progress (st : Shared) :
  Inv st -> allDone st = false ->
  exists i, enabled unicodeFold conf catIconPath i st = true.
Proof.
  intros [Hs [Hm _]] Hd.
  destruct (locked st) eqn:Hl.
  - destruct (tally_pick inCritical (threads st) ltac:(lia)) as [i [t [Hi Ht]]].
    exists i. unfold enabled. rewrite Hi. unfold Mutex.move.
    unfold inCritical in Ht. destruct (pc t); try discriminate; reflexivity.
  - unfold allDone in Hd.
    assert (Hex : existsb (fun t => negb (finished t)) (threads st) = true).
    { clear - Hd. induction (threads st) as [|t l IH]; cbn in *; [discriminate|].
      destruct (finished t); cbn in *; auto. }
    apply existsb_exists in Hex. destruct Hex as [t [Hin Hnf]].
    apply In_nth_error in Hin. destruct Hin as [i Hi].
    exists i. unfold enabled. rewrite Hi. unfold Mutex.move. rewrite Hl.
    apply tally_zero in Hm. pose proof (Forall_nth _ _ _ _ Hm Hi) as Hnc.
    unfold inCritical in Hnc. unfold finished in Hnf.
    destruct (pc t); try discriminate; reflexivity.
Qed.

Lemma work_update (i : nat) (t t' : Thread) (l : list Thread) :
  nth_error l i = Some t ->
  (list_sum (map (fun t => remaining (pc t)) (update i t' l)) + remaining (pc t)
   = list_sum (map (fun t => remaining (pc t)) l) + remaining (pc t'))%nat.
Proof.
  unfold list_sum.
  revert i. induction l as [|z l IH]; intros [|i] H; cbn in *; try discriminate.
  - inversion H; subst. lia.
  - specialize (IH i H). lia.
Qed.

(** No livelock: a move uses up work. *)
Lemma work_step (i : nat) (st : Shared) :
  enabled unicodeFold conf catIconPath i st = true -> (work (step i st) < work st)%nat.
Proof.
  unfold enabled, Mutex.step, work.
  destruct (nth_error (threads st) i) as [t|] eqn:Hi; [|discriminate].
  pose proof (fun t' => work_update i t t' _ Hi) as Hw.
  destruct (move st t) as [[[ld lk] t']|] eqn:Hmv; [|discriminate].
  intros _. cbn [threads]. specialize (Hw t').
  assert (Hlt : (remaining (pc t') < remaining (pc t))%nat); [|lia].
  unfold Mutex.move in Hmv.
  destruct (pc t); try discriminate;
    try (destruct (locked st); [discriminate|]);
    inversion Hmv; subst; cbn [goto pc remaining];
    repeat match goal with |- context [if ?c then _ else _] => destruct c end;
    cbn; lia.
Qed.

Lemma runSchedule_app (a b : list nat) (st : Shared) :
  runSchedule (a ++ b) st = runSchedule b (runSchedule a st).
Proof. revert st. induction a as [|i a IH]; intros st; cbn; auto. Qed.

(** Every state of the pool can be run to the return of all threads. *)
Lemma completion (n : nat) :
  forall st, (work st <= n)%nat -> Inv st ->
  exists more, allDone (runSchedule more st) = true.
Proof.
  induction n as [|n IH]; intros st Hw Hinv.
  - destruct (allDone st) eqn:Hd; [exists []; exact Hd|].
    destruct (progress st Hinv Hd) as [i Hi]. pose proof (work_step i st Hi). lia.
  - destruct (allDone st) eqn:Hd; [exists []; exact Hd|].
    destruct (progress st Hinv Hd) as [i Hi]. pose proof (work_step i st Hi) as Hlt.
    destruct (IH (step i st) ltac:(lia) (Inv_step i st Hinv)) as [more Hmore].
    exists (i :: more). exact Hmore.
Qed.

End PoolFacts.

(** A delivery alone in the pool goes through the moves of the callback:
    the cut at the synchronisation points and [onMessage] agree. *)
Lemma solo_is_onMessage (unicodeFold : Z -> Z) (conf : Config) (icon : string)
    (w : World) (mac : string) (t0 : Time) :
  runSchedule unicodeFold conf icon [0; 0; 0; 0; 0; 0]%nat
    (mkShared t0 false [mkThread Received w mac []])
  = mkShared (fst (onMessage unicodeFold conf icon w mac t0)) false
      [mkThread Done w mac (snd (onMessage unicodeFold conf icon w mac t0))].
Proof.
  unfold onMessage.
  destruct (Fold.EqualFold unicodeFold mac (TargetMAC conf)) eqn:E;
    destruct (DetectionTimeout conf <=? Since (sinceClock w) t0) eqn:L;
    do 7 (cbn -[Fold.EqualFold Since alert Now Z.leb]; rewrite ?E, ?L);
    unfold goto; cbn -[Fold.EqualFold Since alert Now Z.leb];
    rewrite ?app_nil_r; reflexivity.
Qed.

(** C5. Beacons of the target delivered concurrently, all reading their
    clocks within less than one cooldown (in particular all at one
    instant), under every schedule of the callbacks: at no point have two
    of them accepted; when all callbacks have returned exactly one has
    accepted; and every schedule can be continued until all have returned
    (the mutex is always released). The test and the write of
    [lastDetected] happen between [lastDetectedMu.Lock()] and the deferred
    [Unlock()], which is what the invariant [Mutex.Inv] rests on. *)
Theorem one_acceptance_per_cooldown (unicodeFold : Z -> Z) (conf : Config) (icon : string)
    (from : Z) (ds : list (World * string)) (sched : list nat) :
  isDuration (DetectionTimeout conf) ->
  ds <> [] ->
  Forall (fun d => inWindow conf from (sinceClock (fst d))
                   /\ inWindow conf from (nowClock (fst d))
                   /\ Fold.EqualFold unicodeFold (snd d) (TargetMAC conf) = true) ds ->
  let st := runSchedule unicodeFold conf icon sched (spawn ds) in
  (acceptedCount st <= 1)%nat
  /\ (allDone st = true -> acceptedCount st = 1%nat)
  /\ (exists more,
        allDone (runSchedule unicodeFold conf icon (sched ++ more) (spawn ds)) = true).
Proof.
  intros Hrange Hne Hds st.
  assert (Hinv : Inv unicodeFold conf from st).
  { apply Inv_runSchedule; try assumption. apply Inv_spawn. assumption. }
  split; [|split].
  - apply (Inv_at_most_one unicodeFold conf from). exact Hinv.
  - intros Hd. apply (Inv_all_done unicodeFold conf from); try assumption.
    subst st. clear - Hne.
    assert (Hlen : forall s sch,
               List.length (threads (runSchedule unicodeFold conf icon sch s))
               = List.length (threads s)).
    { intros s sch. revert s. induction sch as [|i sch IH]; intros s; [reflexivity|].
      cbn [runSchedule]. rewrite IH. unfold Mutex.step.
      destruct (nth_error (threads s) i) as [t|]; [|reflexivity].
      destruct (move unicodeFold conf icon s t) as [[[ld lk] t']|]; [|reflexivity].
      cbn [threads]. clear. revert i.
      induction (threads s) as [|z l IHl]; intros [|i]; cbn; auto. }
    intros Hnil. specialize (Hlen (spawn ds) sched). rewrite Hnil in Hlen.
    unfold spawn in Hlen. cbn in Hlen. rewrite length_map in Hlen.
    destruct ds; [congruence|discriminate].
  - destruct (completion unicodeFold conf icon from Hrange (work st) st
                (le_n _) Hinv) as [more Hmore].
    exists more. rewrite runSchedule_app. exact Hmore.
Qed.

(** A hundred beacons at 0s with the cooldown of five minutes, every
    thread taking turns: all have returned and one beacon was accepted. *)
Lemma one_acceptance_per_cooldown_witness :
  allDone (runSchedule Sample.noFold Sample.conf Sample.icon
             (Fixtures.roundRobin 410 100) (spawn Fixtures.hundred)) = true
  /\ acceptedCount (runSchedule Sample.noFold Sample.conf Sample.icon
                      (Fixtures.roundRobin 410 100) (spawn Fixtures.hundred)) = 1%nat.
Proof.
  assert (Hd : allDone (runSchedule Sample.noFold Sample.conf Sample.icon
                          (Fixtures.roundRobin 410 100) (spawn Fixtures.hundred)) = true)
    by (vm_compute; reflexivity).
  split; [exact Hd|].
  refine (proj1 (proj2 (one_acceptance_per_cooldown Sample.noFold Sample.conf Sample.icon
                          0 Fixtures.hundred (Fixtures.roundRobin 410 100)
                          _ _ _)) Hd).
  - vm_compute; intuition discriminate.
  - discriminate.
  - unfold Fixtures.hundred. cbn [repeat].
    repeat (constructor; [vm_compute; intuition discriminate|]). constructor.
Defined.

(** Which beacon is accepted depends on the schedule: the first thread
    when the threads are taken counting up, the last when counting down. *)
Example winner_follows_schedule :
  map (fun t => accepted (trace t))
      (firstn 2 (threads (runSchedule Sample.noFold Sample.conf Sample.icon
                            (Fixtures.roundRobin 410 100) (spawn Fixtures.hundred))))
  = [true; false]
  /\ map (fun t => accepted (trace t))
         (skipn 98 (threads (runSchedule Sample.noFold Sample.conf Sample.icon
                               (Fixtures.roundRobinDown 410 100) (spawn Fixtures.hundred))))
     = [false; true].
Proof. split; vm_compute; reflexivity. Qed.

End MutexFacts.

(** ** More on deliveries in sequence *)

Module Sequence.
Import Clock Doorbell ClockFacts DoorbellFacts.

Section Deliveries.

Variable unicodeFold : Z -> Z.
Variable conf : Config.
Variable icon : string.

Local Abbreviation onMessage := (onMessage unicodeFold conf icon).
Local Abbreviation deliver := (deliver unicodeFold conf icon).
Local Abbreviation matches :=
  (fun d : World * string => Fold.EqualFold unicodeFold (snd d) (TargetMAC conf)).

Lemma deliver_cons (w : World) (p : string) (rest : list (World * string)) (st : Time) :
  deliver ((w, p) :: rest) st
  = (fst (deliver rest (fst (onMessage w p st))),
     snd (onMessage w p st) :: snd (deliver rest (fst (onMessage w p st)))).
Proof.
  cbn [Doorbell.deliver]. destruct (onMessage w p st) as [t evs].
  cbn [fst snd]. destruct (deliver rest t) as [t' more]. reflexivity.
Qed.

Lemma deliver_app (a b : list (World * string)) (st : Time) :
  deliver (a ++ b) st
  = (fst (deliver b (fst (deliver a st))),
     snd (deliver a st) ++ snd (deliver b (fst (deliver a st)))).
Proof.
  revert st. induction a as [|[w p] a IH]; intros st.
  - cbn. destruct (deliver b st); reflexivity.
  - cbn [app]. rewrite !deliver_cons, IH. reflexivity.
Qed.

(** The state after a delivery: the reading of [time.Now()] when the
    beacon was accepted, the state before otherwise. *)
Lemma onMessage_state (w : World) (p : string) (st : Time) :
  fst (onMessage w p st)
  = if accepted (snd (onMessage w p st)) then Now (nowClock w) else st.
Proof.
  unfold Doorbell.onMessage.
  destruct (Fold.EqualFold unicodeFold p (TargetMAC conf)); [|reflexivity].
  destruct (DetectionTimeout conf <=? Since (sinceClock w) st); cbn [fst snd].
  - rewrite accepted_alert. reflexivity.
  - reflexivity.
Qed.

(** After a beacon recorded at [r0], every later accepted beacon was
    tested at least the cooldown after [r0], as long as the recorded
    times do not decrease. *)
Lemma accepted_after (ds : list (World * string)) :
  forall r0 : Reading,
  sane r0 ->
  Forall (fun d => sane (sinceClock (fst d)) /\ sane (nowClock (fst d))) ds ->
  StronglySorted Z.le (monotonic r0 :: map recorded ds) ->
  forall j dj tj,
  nth_error ds j = Some dj ->
  nth_error (snd (deliver ds (Now r0))) j = Some tj ->
  accepted tj = true ->
  DetectionTimeout conf <= stamp dj - monotonic r0.
Proof.
  induction ds as [|[w p] ds IH]; intros r0 Hr0 Hs Hsort j dj tj Hj Ht Hacc.
  - destruct j; discriminate.
  - inversion Hs as [|? ? [Hsw Hnw] Hs']; subst. cbn [fst] in *.
    rewrite deliver_cons in Ht. cbn [snd] in Ht.
    inversion Hsort as [|? ? Hsorted Hall]; subst.
    cbn [map] in Hsorted, Hall.
    inversion Hall as [|? ? Hr0w Hall']; subst.
    inversion Hsorted as [|? ? Hsorted' Hallw]; subst.
    destruct j as [|j]; cbn [nth_error] in Hj, Ht.
    + inversion Hj; subst. inversion Ht; subst.
      apply accepted_inv in Hacc. destruct Hacc as [_ Hc].
      rewrite Since_Now in Hc by assumption. exact Hc.
    + rewrite onMessage_state in Ht.
      destruct (accepted (snd (onMessage w p (Now r0)))).
      * assert (H1 : DetectionTimeout conf <= stamp dj - monotonic (nowClock w)).
        { apply (IH (nowClock w) Hnw Hs') with (j := j) (tj := tj); auto;
            constructor; assumption. }
        change (recorded (w, p)) with (monotonic (nowClock w)) in Hr0w. lia.
      * apply (IH r0 Hr0 Hs') with (j := j) (tj := tj); auto;
          constructor; assumption.
Qed.

End Deliveries.

(** X1. Whatever is delivered, beacons of the target or of other devices,
    on a clock whose recorded readings do not go back: any two accepted
    beacons are at least the cooldown apart, from the time recorded for
    the earlier to the time the later was tested. *)
Theorem alerts_spaced (unicodeFold : Z -> Z) (conf : Config) (icon : string)
    (ds : list (World * string)) (st : Time) (i j : nat)
    (di dj : World * string) (ti tj : list Event) :
  Forall (fun d => sane (sinceClock (fst d)) /\ sane (nowClock (fst d))) ds ->
  StronglySorted Z.le (map recorded ds) ->
  (i < j)%nat ->
  nth_error ds i = Some di ->
  nth_error ds j = Some dj ->
  nth_error (snd (deliver unicodeFold conf icon ds st)) i = Some ti ->
  nth_error (snd (deliver unicodeFold conf icon ds st)) j = Some tj ->
  accepted ti = true ->
  accepted tj = true ->
  DetectionTimeout conf <= stamp dj - recorded di.
Proof.
  revert st i j. induction ds as [|[w p] ds IH];
    intros st i j Hs Hsort Hij Hi Hj Hti Htj Hai Haj.
  - destruct i; discriminate.
  - inversion Hs as [|? ? [Hsw Hnw] Hs']; subst. cbn [fst] in *.
    rewrite deliver_cons in Hti, Htj. cbn [snd] in Hti, Htj.
    cbn [map] in Hsort. inversion Hsort as [|? ? Hsorted Hall]; subst.
    destruct j as [|j]; [lia|]. cbn [nth_error] in Hj, Htj.
    destruct i as [|i]; cbn [nth_error] in Hi, Hti.
    + inversion Hi; subst. inversion Hti; subst.
      rewrite onMessage_state, Hai in Htj.
      change (recorded (w, p)) with (monotonic (nowClock w)).
      apply (accepted_after unicodeFold conf icon ds (nowClock w) Hnw Hs')
        with (j := j) (tj := tj); auto; constructor; assumption.
    + apply (IH (fst (onMessage unicodeFold conf icon w p st)) i j); auto. lia.
Qed.

Lemma alerts_spaced_witness :
  DetectionTimeout Sample.conf
  <= stamp (Sample.quiet 301, Sample.beacon) - recorded (Sample.quiet 0, Sample.beacon).
Proof.
  eapply (alerts_spaced Sample.noFold Sample.conf Sample.icon Sample.sightings
            zeroTime 0 2).
  - repeat constructor; vm_compute; intuition discriminate.
  - repeat constructor; vm_compute; discriminate.
  - lia.
  - reflexivity.
  - reflexivity.
  - reflexivity.
  - reflexivity.
  - reflexivity.
  - reflexivity.
Defined.

(** X2. Beacons of other devices have no part in the gate: dropping them
    from the deliveries changes neither the final [lastDetected] nor the
    traces of the accepted beacons. *)
Theorem other_devices_do_not_interfere (unicodeFold : Z -> Z) (conf : Config)
    (icon : string) (ds : list (World * string)) (st : Time) :
  let mine := filter (fun d => Fold.EqualFold unicodeFold (snd d) (TargetMAC conf)) ds in
  fst (deliver unicodeFold conf icon ds st) = fst (deliver unicodeFold conf icon mine st)
  /\ filter accepted (snd (deliver unicodeFold conf icon ds st))
     = filter accepted (snd (deliver unicodeFold conf icon mine st)).
Proof.
  cbv zeta. revert st. induction ds as [|[w p] ds IH]; intros st; [split; reflexivity|].
  cbn [filter snd].
  destruct (Fold.EqualFold unicodeFold p (TargetMAC conf)) eqn:E.
  - rewrite !deliver_cons. cbn [fst snd filter].
    destruct (IH (fst (onMessage unicodeFold conf icon w p st))) as [H1 H2].
    rewrite H1, H2. split; reflexivity.
  - rewrite deliver_cons. rewrite onMessage_other by exact E. cbn [fst snd filter].
    apply IH.
Qed.

(** X3. The cooldown is counted from the last accepted beacon and is not
    prolonged by what arrives during it: after a beacon recorded at
    [last], deliveries tested less than the cooldown later are all
    ignored and leave [lastDetected] alone, and the first beacon of the
    target tested at least the cooldown after [last] is accepted. *)
Theorem cooldown_is_not_prolonged (unicodeFold : Z -> Z) (conf : Config) (icon : string)
    (last : Reading) (during : list (World * string)) (w : World) (p : string) :
  sane last ->
  Forall (fun d => sane (sinceClock (fst d))
                   /\ stamp d - monotonic last < DetectionTimeout conf) during ->
  sane (sinceClock w) ->
  Fold.EqualFold unicodeFold p (TargetMAC conf) = true ->
  DetectionTimeout conf <= monotonic (sinceClock w) - monotonic last ->
  fst (deliver unicodeFold conf icon during (Now last)) = Now last
  /\ Forall (fun t => accepted t = false /\ dispatched t = false)
       (snd (deliver unicodeFold conf icon during (Now last)))
  /\ deliver unicodeFold conf icon (during ++ [(w, p)]) (Now last)
     = (Now (nowClock w),
        snd (deliver unicodeFold conf icon during (Now last))
        ++ [[Debug "Received beacon from device" p] ++ alert icon w p]).
Proof.
  intros Hl Hd Hw Hm Hc.
  assert (Hquiet : fst (deliver unicodeFold conf icon during (Now last)) = Now last
                   /\ Forall (fun t => accepted t = false /\ dispatched t = false)
                        (snd (deliver unicodeFold conf icon during (Now last)))).
  { induction Hd as [|[w' p'] during [Hs Hlt] Hd IH]; [split; [reflexivity|constructor]|].
    rewrite deliver_cons. cbn [fst snd] in *.
    change (stamp (w', p')) with (monotonic (sinceClock w')) in Hlt.
    destruct (Fold.EqualFold unicodeFold p' (TargetMAC conf)) eqn:E.
    - rewrite onMessage_ignore by (auto; rewrite Since_Now; assumption).
      cbn [fst snd]. destruct IH as [IH1 IH2]. split; [exact IH1|].
      constructor; [split; reflexivity|exact IH2].
    - rewrite onMessage_other by exact E.
      cbn [fst snd]. destruct IH as [IH1 IH2]. split; [exact IH1|].
      constructor; [split; reflexivity|exact IH2]. }
  destruct Hquiet as [H1 H2]. split; [exact H1|]. split; [exact H2|].
  rewrite deliver_app, H1, deliver_cons.
  rewrite onMessage_accept by (auto; rewrite Since_Now; assumption).
  reflexivity.
Qed.

Lemma cooldown_is_not_prolonged_witness :
  fst (deliver Sample.noFold Sample.conf Sample.icon
         [(Sample.quiet 60, Sample.beacon); (Sample.quiet 299, Sample.beacon)]
         (Now (Sample.atSecond 0))) = Now (Sample.atSecond 0)
  /\ Forall (fun t => accepted t = false /\ dispatched t = false)
       (snd (deliver Sample.noFold Sample.conf Sample.icon
               [(Sample.quiet 60, Sample.beacon); (Sample.quiet 299, Sample.beacon)]
               (Now (Sample.atSecond 0))))
  /\ deliver Sample.noFold Sample.conf Sample.icon
       ([(Sample.quiet 60, Sample.beacon); (Sample.quiet 299, Sample.beacon)]
        ++ [(Sample.quiet 300, Sample.beacon)]) (Now (Sample.atSecond 0))
     = (Now (nowClock (Sample.quiet 300)),
        snd (deliver Sample.noFold Sample.conf Sample.icon
               [(Sample.quiet 60, Sample.beacon); (Sample.quiet 299, Sample.beacon)]
               (Now (Sample.atSecond 0)))
        ++ [[Debug "Received beacon from device" Sample.beacon]
            ++ alert Sample.icon (Sample.quiet 300) Sample.beacon]).
Proof.
  apply (cooldown_is_not_prolonged Sample.noFold Sample.conf Sample.icon
           (Sample.atSecond 0)
           [(Sample.quiet 60, Sample.beacon); (Sample.quiet 299, Sample.beacon)]
           (Sample.quiet 300) Sample.beacon).
  - vm_compute; intuition discriminate.
  - repeat constructor; vm_compute; intuition discriminate.
  - vm_compute; intuition discriminate.
  - reflexivity.
  - vm_compute; discriminate.
Defined.

End Sequence.

(** ** More on concurrent deliveries *)

Module Exclusion.
Import Clock Doorbell Mutex MutexFacts.

Section AnyPool.

Variable unicodeFold : Z -> Z.
Variable conf : Config.
Variable icon : string.

Local Abbreviation step := (step unicodeFold conf icon).
Local Abbreviation runSchedule := (runSchedule unicodeFold conf icon).

(** The mutex is held exactly while one thread is between [Lock] and the
    deferred [Unlock]. *)
Lemma held_step (i : nat) (st : Shared) :
  tally inCritical (threads st) = (if locked st then 1 else 0)%nat ->
  tally inCritical (threads (step i st)) = (if locked (step i st) then 1 else 0)%nat.
Proof.
  intros Hm. unfold Mutex.step.
  destruct (nth_error (threads st) i) as [t|] eqn:Hi; [|exact Hm].
  pose proof (fun t' => tally_update inCritical i t t' _ Hi) as Tc.
  pose proof (tally_pos inCritical i t _ Hi) as Pc.
  destruct (move unicodeFold conf icon st t) as [[[ld lk] t']|] eqn:Hmv; [|exact Hm].
  cbn [threads locked]. specialize (Tc t').
  assert (Ht : inCritical t = critical (pc t)) by reflexivity.
  assert (Ht' : inCritical t' = critical (pc t')) by reflexivity.
  rewrite Ht, Ht' in Tc. rewrite Ht in Pc. clear Ht Ht'.
  unfold Mutex.move in Hmv.
  destruct (pc t) eqn:Hpc; cbn [critical] in Tc, Pc;
    try (destruct (locked st) eqn:Hl; [discriminate|]);
    inversion Hmv; subst; cbn [goto pc critical] in Tc;
    repeat match goal with
           | H : context [critical (if ?c then _ else _)] |- _ => destruct c
           end;
    cbn [critical] in Tc; try specialize (Pc eq_refl);
    repeat match goal with
           | |- context [if ?c then _ else _] => destruct c
           | H : context [if ?c then _ else _] |- _ => destruct c
           end; lia.
Qed.

Lemma held_runSchedule (sched : list nat) (st : Shared) :
  tally inCritical (threads st) = (if locked st then 1 else 0)%nat ->
  tally inCritical (threads (runSchedule sched st))
  = (if locked (runSchedule sched st) then 1 else 0)%nat.
Proof.
  revert st. induction sched as [|i sched IH]; intros st H; cbn; [exact H|].
  apply IH. apply held_step. exact H.
Qed.

End AnyPool.

(** X4. Mutual exclusion, for any deliveries (of the target or not, at any
    clock readings) and under every schedule: at most one callback is
    between [lastDetectedMu.Lock()] and the deferred [Unlock()], the mutex
    is held exactly while one is, and it is free once every callback has
    returned. *)
Theorem mutual_exclusion (unicodeFold : Z -> Z) (conf : Config) (icon : string)
    (ds : list (World * string)) (sched : list nat) :
  let st := runSchedule unicodeFold conf icon sched (spawn ds) in
  (tally inCritical (threads st) <= 1)%nat
  /\ (locked st = true <-> tally inCritical (threads st) = 1%nat)
  /\ (allDone st = true -> locked st = false).
Proof.
  intros st.
  assert (H : tally inCritical (threads st) = (if locked st then 1 else 0)%nat).
  { apply held_runSchedule. unfold spawn. cbn [threads locked].
    apply tally_zero. induction ds as [|d ds IH]; cbn; constructor; auto. }
  split; [destruct (locked st); lia|].
  split; [destruct (locked st); split; intros; (congruence || lia)|].
  intros Hd. destruct (locked st) eqn:Hl; [exfalso|reflexivity].
  destruct (tally_pick inCritical (threads st) ltac:(lia)) as [i [t [Hi Ht]]].
  unfold allDone in Hd. rewrite forallb_forall in Hd.
  specialize (Hd t (nth_error_In _ _ Hi)).
  unfold finished in Hd. unfold inCritical in Ht. destruct (pc t); discriminate.
Qed.

End Exclusion.

(** ** package assets *)

Module AssetsFacts.
Import Assets.


End AssetsFacts.

(** ** Pruning again *)

Module LogsMore.
Import Logs LogsFacts.

Lemma skipn_cons_nth {A} (k : nat) (l : list A) (x : A) :
  nth_error l k = Some x -> exists tl', skipn k l = x :: tl'.
Proof.
  revert l. induction k as [|k IH]; intros [|y l] H; cbn in *; try discriminate.
  - inversion H; subst. eauto.
  - apply IH. exact H.
Qed.

(** The first entry of a list that cannot be removed, if any. *)
Lemma first_failure (old : list DirEntry) :
  Forall removable old
  \/ exists k e err, nth_error old k = Some e /\ removeErr e = Some err
                     /\ Forall removable (firstn k old).
Proof.
  induction old as [|x l IH]; [left; constructor|].
  destruct (removeErr x) as [err|] eqn:Hx.
  - right. exists 0%nat, x, err. repeat split; auto; cbn; constructor.
  - destruct IH as [IH|[k [e [err [Hk [He Hpre]]]]]].
    + left. constructor; assumption.
    + right. exists (S k), e, err. repeat split; auto; cbn; constructor; assumption.
Qed.

(** What [removeOldLogs] returns: the last ten entries at most, or the
    listing from the first old entry that could not be removed. *)
Lemma removeOldLogs_result (d : Dir) :
  NoDup (names d) ->
  removeOldLogs None d = (None, skipn (List.length d - 10) d)
  \/ exists k e err,
       (k < List.length d - 10)%nat
       /\ nth_error d k = Some e
       /\ removeErr e = Some err
       /\ removeOldLogs None d
          = (Some ("failed to remove old log entry: " ++ err)%string, skipn k d).
Proof.
  intros Hnd. unfold removeOldLogs.
  destruct (Nat.ltb_spec 10 (List.length d)) as [Hlen|Hlen].
  - set (n := (List.length d - 10)%nat).
    destruct (first_failure (firstn n d)) as [Hall|[k [e [err [Hk [He Hpre]]]]]].
    + left.
      assert (Hcut : removeAll (firstn n d) d
                     = removeAll (firstn n d ++ []) (firstn n d ++ skipn n d)).
      { rewrite app_nil_r, firstn_skipn. reflexivity. }
      rewrite Hcut, removeAll_passes; [reflexivity| |exact Hall].
      rewrite firstn_skipn. exact Hnd.
    + right. exists k, e, err.
      assert (Hklt : (k < List.length (firstn n d))%nat)
        by (apply nth_error_Some; congruence).
      rewrite length_firstn in Hklt.
      assert (Hkn : (k < n)%nat) by lia.
      assert (Hnth : nth_error d k = Some e).
      { rewrite nth_error_firstn in Hk.
        destruct (Nat.ltb_spec k n); [assumption|discriminate]. }
      split; [exact Hkn|]. split; [exact Hnth|]. split; [exact He|].
      assert (Hfk : firstn k (firstn n d) = firstn k d).
      { rewrite firstn_firstn. f_equal. lia. }
      destruct (nth_error_split (firstn n d) k Hk) as [pre [post [Hsplit Hlenpre]]].
      assert (Hpre' : pre = firstn k d).
      { rewrite <- Hfk, Hsplit, <- Hlenpre, firstn_app, Nat.sub_diag, firstn_all.
        cbn. rewrite app_nil_r. reflexivity. }
      assert (Hcut : removeAll (firstn n d) d
                     = removeAll (pre ++ e :: post) (pre ++ skipn k d)).
      { rewrite <- Hsplit. rewrite Hpre', firstn_skipn. reflexivity. }
      rewrite Hcut, removeAll_passes.
      * destruct (skipn_cons_nth k d e Hnth) as [tl' Htl].
        rewrite Htl. cbn. rewrite He. reflexivity.
      * rewrite Hpre', firstn_skipn. exact Hnd.
      * rewrite Hpre', <- Hfk. exact Hpre.
  - left. replace (List.length d - 10)%nat with 0%nat by lia. reflexivity.
Qed.

Lemma NoDup_skipn {A} (k : nat) (l : list A) : NoDup l -> NoDup (skipn k l).
Proof.
  revert l. induction k as [|k IH]; intros [|x l] H; cbn; auto.
  apply IH. inversion H; assumption.
Qed.

Lemma removeOldLogs_NoDup (d : Dir) :
  NoDup (names d) -> NoDup (names (snd (removeOldLogs None d))).
Proof.
  intros Hnd. unfold names in *.
  destruct (removeOldLogs_result d Hnd) as [H|[k [e [err [_ [_ [_ H]]]]]]];
    rewrite H; cbn [snd]; rewrite <- skipn_map; apply NoDup_skipn; exact Hnd.
Qed.

Lemma removeOldLogs_nil_ten (d : Dir) :
  NoDup (names d) ->
  fst (removeOldLogs None d) = None ->
  (List.length (snd (removeOldLogs None d)) <= 10)%nat.
Proof.
  intros Hnd.
  destruct (removeOldLogs_result d Hnd) as [H|[k [e [err [Hk [Hnth [He H]]]]]]];
    rewrite H; cbn [fst snd]; [|discriminate].
  intros _. rewrite length_skipn. lia.
Qed.

(** X6. Pruning is idempotent: on the directory a first call left, a
    second call removes nothing and returns what the first returned, its
    error included. A call that returned [nil] left ten entries at most. *)
Theorem removeOldLogs_idempotent (d : Dir) :
  NoDup (names d) ->
  removeOldLogs None (snd (removeOldLogs None d)) = removeOldLogs None d
  /\ (fst (removeOldLogs None d) = None ->
      (List.length (snd (removeOldLogs None d)) <= 10)%nat).
Proof.
  intros Hnd.
  destruct (removeOldLogs_result d Hnd) as [H|[k [e [err [Hk [Hnth [He H]]]]]]];
    rewrite H; cbn [fst snd].
  - split; [|intros _; rewrite length_skipn; lia].
    unfold removeOldLogs at 1.
    destruct (Nat.ltb_spec 10 (List.length (skipn (List.length d - 10) d)));
      [rewrite length_skipn in *; lia|reflexivity].
  - split; [|discriminate].
    unfold removeOldLogs.
    destruct (Nat.ltb_spec 10 (List.length (skipn k d))) as [Hl|Hl];
      [|rewrite length_skipn in Hl; lia].
    destruct (skipn_cons_nth k d e Hnth) as [tl' Htl]. rewrite Htl in *.
    cbn [List.length] in *.
    destruct (S (List.length tl') - 10)%nat as [|m] eqn:Hm; [lia|].
    cbn [firstn removeAll]. rewrite He. reflexivity.
Qed.

Lemma removeOldLogs_idempotent_witness :
  removeOldLogs None (snd (removeOldLogs None Fixtures.withSubdir))
  = removeOldLogs None Fixtures.withSubdir
  /\ (fst (removeOldLogs None Fixtures.withSubdir) = None ->
      (List.length (snd (removeOldLogs None Fixtures.withSubdir)) <= 10)%nat).
Proof.
  apply (removeOldLogs_idempotent Fixtures.withSubdir).
  unfold Fixtures.withSubdir, Fixtures.elevenLogs, names. cbn.
  repeat (constructor; [cbn; intuition discriminate|]). constructor.
Defined.

End LogsMore.

(** ** Before the action *)

Module StartupFacts.
Import Startup LogsMore.

Lemma beforeAll_split {S E : Type} (a b : list (S -> Return E * S)) (c : S) :
  beforeAll (a ++ b) c
  = match beforeAll a c with
    | (Nil, c') => beforeAll b c'
    | stopped => stopped
    end.
Proof.
  revert c. induction a as [|f a IH]; intros c; cbn [app beforeAll].
  - reflexivity.
  - destruct (f c) as [[|e|code] c']; [apply IH|reflexivity|reflexivity].
Qed.


Lemma create_length (name : string) (d : Logs.Dir) :
  (List.length (create name d) <= S (List.length d))%nat.
Proof.
  induction d as [|e d IH]; cbn; [lia|].
  destruct (String.eqb (Logs.Name e) name); cbn; [lia|].
  destruct (String.ltb name (Logs.Name e)); cbn; lia.
Qed.

Lemma create_In (name : string) (d : Logs.Dir) :
  In name (Logs.names (create name d)).
Proof.
  induction d as [|e d IH]; cbn; [auto|].
  destruct (String.eqb_spec (Logs.Name e) name); cbn; [auto|].
  destruct (String.ltb name (Logs.Name e)); cbn; auto.
Qed.

Lemma create_keeps (name other : string) (d : Logs.Dir) :
  In other (Logs.names d) -> In other (Logs.names (create name d)).
Proof.
  induction d as [|e d IH]; cbn; [tauto|].
  destruct (String.eqb (Logs.Name e) name); cbn; [tauto|].
  destruct (String.ltb name (Logs.Name e)); cbn; tauto.
Qed.

(** X8. When [initLogger] returns [nil], the log directory holds eleven
    entries at most: the ten that pruning left, at most, and the log file
    of this run, which is in the directory and is where the logger
    writes. The configuration is not touched. *)
Theorem initLogger_bounds_logs (sys : Sys) (p p' : Proc) :
  NoDup (Logs.names (logDir p)) ->
  initLogger sys p = (Nil, p') ->
  (List.length (logDir p') <= 11)%nat
  /\ In (logFileName sys) (Logs.names (logDir p'))
  /\ logFile p' = Some (logFileName sys)
  /\ conf p' = conf p.
Proof.
  intros Hnd. unfold initLogger.
  destruct (mkdirAllErr sys); [discriminate|].
  destruct (readDirErr sys) as [re|] eqn:Hr; [cbn; discriminate|].
  pose proof (removeOldLogs_nil_ten (logDir p) Hnd) as Hten.
  destruct (Logs.removeOldLogs None (logDir p)) as [[e|] d]; [discriminate|].
  cbn [fst snd] in Hten. specialize (Hten eq_refl).
  destruct (openLogErr sys); [discriminate|].
  intros H. inversion H; subst. cbn [logDir logFile conf].
  split; [pose proof (create_length (logFileName sys) d); lia|].
  split; [apply create_In|]. split; reflexivity.
Qed.

Lemma initLogger_bounds_logs_witness :
  let sys := Machines.working in
  let p := Machines.starting in
  let p' := snd (initLogger sys p) in
  (List.length (logDir p') <= 11)%nat
  /\ In (logFileName sys) (Logs.names (logDir p'))
  /\ logFile p' = Some (logFileName sys)
  /\ conf p' = conf p.
Proof.
  apply (initLogger_bounds_logs Machines.working Machines.starting).
  - unfold Fixtures.elevenLogs, Logs.names. cbn.
    repeat (constructor; [cbn; intuition discriminate|]). constructor.
  - reflexivity.
Defined.

(** X9. [Before] is [initLogger] then [loadConfig]: when the logger cannot
    be set up the result is that of [initLogger] and the configuration is
    not read ([conf] keeps its value); [Before] returns [nil] exactly when
    [initLogger] returned [nil], the configuration file opened and
    [FromYAML] gave a configuration, which is then [conf], the rest being
    as [initLogger] left it. *)
Theorem Before_logs_then_loads
    (unmarshalTypeMeta : string -> string + TypeMeta)
    (unmarshalConfig : string -> Config -> string + Config)
    (sys : Sys) (p : Proc) :
  let done := Before unmarshalTypeMeta unmarshalConfig sys p in
  (fst (initLogger sys p) <> Nil ->
     done = initLogger sys p /\ conf (snd done) = conf p)
  /\ (fst done = Nil <->
      exists p1 c,
        initLogger sys p = (Nil, p1)
        /\ openConfigErr sys = None
        /\ Loader.FromYAML unmarshalTypeMeta unmarshalConfig (configReader sys)
           = Loader.Ok c
        /\ snd done = mkProc (logDir p1) (logFile p1) (Some c)).
Proof.
  intros done. subst done. unfold Before. cbn [beforeAll].
  assert (Hconf : fst (initLogger sys p) <> Nil -> conf (snd (initLogger sys p)) = conf p).
  { unfold initLogger. destruct (mkdirAllErr sys); [reflexivity|].
    destruct (Logs.removeOldLogs (readDirErr sys) (logDir p)) as [[e|] d]; [reflexivity|].
    destruct (openLogErr sys); [reflexivity|]. cbn. congruence. }
  destruct (initLogger sys p) as [[|e|code] p1] eqn:Hi; cbn [fst snd] in *.
  - split; [congruence|].
    unfold loadConfig. destruct (openConfigErr sys) as [oe|].
    + cbn. split; [discriminate|]. intros [p2 [c [_ [H _]]]]. discriminate.
    + destruct (Loader.FromYAML unmarshalTypeMeta unmarshalConfig (configReader sys))
        as [c|le]; cbn.
      * split; [intros _; exists p1, c; auto|reflexivity].
      * split; [discriminate|]. intros [p2 [c [_ [_ [H _]]]]]. discriminate.
  - split; [intros _; split; [reflexivity|apply Hconf; discriminate]|].
    split; [discriminate|]. intros [p2 [c [H _]]]. discriminate.
  - split; [intros _; split; [reflexivity|apply Hconf; discriminate]|].
    split; [discriminate|]. intros [p2 [c [H _]]]. discriminate.
Qed.

End StartupFacts.

(** ** [run] *)

Module RunnerFacts.
Import Runner.


End RunnerFacts.


(** ** The loader again *)

Module LoaderMore.
Import Loader.

(** X11. What [FromYAML] returns, case by case in the order of its tests:
    the reader's error; the error of decoding the type meta; an
    unsupported api version; an unsupported kind (for the supported
    version only); the error of decoding the whole document into a fresh
    [Config]; or the decoded configuration. No other error is returned,
    and migration never fails. *)
Theorem FromYAML_cases
    (unmarshalTypeMeta : string -> string + TypeMeta)
    (unmarshalConfig : string -> Config -> string + Config)
    (r : string + string) :
  match FromYAML unmarshalTypeMeta unmarshalConfig r with
  | Ok c =>
      exists doc t, r = inr doc /\ unmarshalTypeMeta doc = inr t
                    /\ APIVersion t = latestAPIVersion /\ Kind t = "Config"%string
                    /\ unmarshalConfig doc emptyConfig = inr c
  | Err (ReadError e) => r = inl e
  | Err (TypeMetaError e) => exists doc, r = inr doc /\ unmarshalTypeMeta doc = inl e
  | Err (UnsupportedAPIVersion v) =>
      exists doc t, r = inr doc /\ unmarshalTypeMeta doc = inr t
                    /\ APIVersion t = v /\ v <> latestAPIVersion
  | Err (ByKindError k cause) =>
      cause = UnsupportedKind k
      /\ exists doc t, r = inr doc /\ unmarshalTypeMeta doc = inr t
                       /\ APIVersion t = latestAPIVersion
                       /\ Kind t = k /\ k <> "Config"%string
  | Err (UnmarshalError e) =>
      exists doc t, r = inr doc /\ unmarshalTypeMeta doc = inr t
                    /\ APIVersion t = latestAPIVersion /\ Kind t = "Config"%string
                    /\ unmarshalConfig doc emptyConfig = inl e
  | Err _ => False
  end.
Proof.
  unfold FromYAML. destruct r as [e|doc]; [reflexivity|].
  destruct (unmarshalTypeMeta doc) as [e|t] eqn:Ht; [exists doc; auto|].
  destruct (String.eqb_spec (APIVersion t) latestAPIVersion) as [Hv|Hv];
    [|exists doc, t; auto].
  unfold GetConfigByKind.
  destruct (String.eqb_spec (Kind t) "Config") as [Hk|Hk];
    [|split; [reflexivity|exists doc, t; auto]].
  destruct (unmarshalConfig doc emptyConfig) as [e|c] eqn:Hc; cbn;
    exists doc, t; auto.
Qed.

(** X12. A configuration stamped by [PopulateTypeMeta] carries the version
    and kind that the loader accepts, and they are what [GetAPIVersion]
    and [GetKind] answer: a document whose type meta decodes to the stamp
    gets past both tests of [FromYAML], whose result is then that of
    decoding the document. Stamping changes no other field and stamping
    twice is stamping once. *)
Theorem stamped_config_loads
    (unmarshalTypeMeta : string -> string + TypeMeta)
    (unmarshalConfig : string -> Config -> string + Config)
    (doc : string) (c : Config) :
  unmarshalTypeMeta doc = inr (meta (V1alpha1.PopulateTypeMeta c)) ->
  FromYAML unmarshalTypeMeta unmarshalConfig (inr doc)
  = match unmarshalConfig doc emptyConfig with
    | inr c' => Ok c'
    | inl e => Err (UnmarshalError e)
    end
  /\ GetConfigByKind (V1alpha1.GetKind c) = Ok (V1alpha1 emptyConfig)
  /\ meta (V1alpha1.PopulateTypeMeta c)
     = mkTypeMeta (V1alpha1.GetAPIVersion c) (V1alpha1.GetKind c)
  /\ V1alpha1.PopulateTypeMeta (V1alpha1.PopulateTypeMeta c) = V1alpha1.PopulateTypeMeta c
  /\ Broker (V1alpha1.PopulateTypeMeta c) = Broker c
  /\ TargetMAC (V1alpha1.PopulateTypeMeta c) = TargetMAC c
  /\ DetectionTimeout (V1alpha1.PopulateTypeMeta c) = DetectionTimeout c.
Proof.
  intros Ht. split; [|repeat split].
  unfold FromYAML. rewrite Ht. cbn.
  destruct (unmarshalConfig doc emptyConfig); reflexivity.
Qed.

Lemma stamped_config_loads_witness :
  FromYAML Fixtures.typeMetaOf Fixtures.configOf (inr "v1alpha1/Config"%string)
  = match Fixtures.configOf "v1alpha1/Config" emptyConfig with
    | inr c' => Ok c'
    | inl e => Err (UnmarshalError e)
    end
  /\ GetConfigByKind (V1alpha1.GetKind Sample.conf) = Ok (V1alpha1 emptyConfig)
  /\ meta (V1alpha1.PopulateTypeMeta Sample.conf)
     = mkTypeMeta (V1alpha1.GetAPIVersion Sample.conf) (V1alpha1.GetKind Sample.conf)
  /\ V1alpha1.PopulateTypeMeta (V1alpha1.PopulateTypeMeta Sample.conf)
     = V1alpha1.PopulateTypeMeta Sample.conf
  /\ Broker (V1alpha1.PopulateTypeMeta Sample.conf) = Broker Sample.conf
  /\ TargetMAC (V1alpha1.PopulateTypeMeta Sample.conf) = TargetMAC Sample.conf
  /\ DetectionTimeout (V1alpha1.PopulateTypeMeta Sample.conf)
     = DetectionTimeout Sample.conf.
Proof.
  apply (stamped_config_loads Fixtures.typeMetaOf Fixtures.configOf
           "v1alpha1/Config" Sample.conf).
  reflexivity.
Defined.

End LoaderMore.

(** ** The identity test again *)

Module MatcherMore.
Import Utf8 Fold FoldFacts.

Section Reflexive.
Variable unicodeFold : Z -> Z.

Lemma runesFold_refl (r : Z) : runesFold unicodeFold r r = true.
Proof. unfold runesFold. rewrite Z.eqb_refl. reflexivity. Qed.

(** Runes are at least one byte wide. *)
Lemma decode_width (s0 : Z) (rest : list Z) :
  (1 <= snd (DecodeRuneInString (s0 :: rest)))%nat.
Proof.
  unfold DecodeRuneInString.
  repeat match goal with
         | |- context [if ?c then _ else _] => destruct c
         end; cbn [snd]; lia.
Qed.

Lemma skipn_length_le {A} (k : nat) (l : list A) :
  (List.length (skipn k l) <= List.length l - k)%nat.
Proof. rewrite length_skipn. lia. Qed.

(** The rune loop on a string against itself. *)
Lemma foldRunes_refl (n : nat) :
  forall s : list Z, (List.length s <= n)%nat -> foldRunes unicodeFold n s s = true.
Proof.
  induction n as [|n IH]; intros [|s0 rest] Hlen; cbn [List.length] in Hlen;
    try reflexivity; [lia|].
  cbn [foldRunes].
  pose proof (decode_width s0 rest) as Hw.
  destruct (Z.ltb_spec s0 RuneSelf) as [Ha|Ha].
  - assert (Hd : DecodeRuneInString (s0 :: rest) = (s0, 1%nat)).
    { unfold DecodeRuneInString, first, RuneSelf in *.
      destruct (Z.ltb_spec s0 128); [reflexivity|lia]. }
    rewrite Hd. rewrite runesFold_refl. cbn [skipn]. apply IH. lia.
  - destruct (DecodeRuneInString (s0 :: rest)) as [sr size]. cbn [snd] in Hw.
    rewrite runesFold_refl. apply IH.
    pose proof (skipn_length_le size (s0 :: rest)). cbn [List.length] in *. lia.
Qed.

Lemma equalFoldFrom_refl (s : list Z) : equalFoldFrom unicodeFold s s = true.
Proof.
  induction s as [|s0 rest IH]; [reflexivity|].
  cbn [equalFoldFrom].
  destruct (RuneSelf <=? Z.lor s0 s0).
  - apply foldRunes_refl. lia.
  - rewrite Z.eqb_refl. exact IH.
Qed.

End Reflexive.

(** X13. A payload that is the configured address byte for byte matches
    it, whatever the bytes are (letters, bytes that are not UTF-8) and
    whatever the folding tables: [EqualFold] holds of every string and
    itself. *)
Theorem EqualFold_refl (unicodeFold : Z -> Z) (s : string) :
  Fold.EqualFold unicodeFold s s = true.
Proof. unfold Fold.EqualFold. apply equalFoldFrom_refl. Qed.

End MatcherMore.

(** ** The callbacks are serializable *)

Module SerialFacts.
Import Clock Doorbell Mutex Serial MutexFacts DoorbellFacts.

Lemma nth_error_update_eq {A} (i : nat) (x y : A) (l : list A) :
  nth_error l i = Some y -> nth_error (update i x l) i = Some x.
Proof.
  revert i. induction l as [|z l IH]; intros [|i] H; cbn in *; try discriminate; auto.
Qed.

Lemma nth_error_update_neq {A} (i j : nat) (x : A) (l : list A) :
  j <> i -> nth_error (update i x l) j = nth_error l j.
Proof.
  revert i j. induction l as [|z l IH]; intros [|i] [|j] H; cbn; auto; congruence.
Qed.

Lemma length_update {A} (i : nat) (x : A) (l : list A) :
  List.length (update i x l) = List.length l.
Proof. revert i. induction l as [|z l IH]; intros [|i]; cbn; auto. Qed.

Lemma select_update {A B} (f : A -> B) (i : nat) (x : A) (l : list A) (idx : list nat) :
  ~ In i idx -> select f (update i x l) idx = select f l idx.
Proof.
  unfold select. induction idx as [|j idx IH]; intros H; cbn; [reflexivity|].
  rewrite nth_error_update_neq by (intros E; apply H; left; congruence).
  rewrite IH by (intros E; apply H; right; exact E). reflexivity.
Qed.

Lemma select_snoc {A B} (f : A -> B) (i : nat) (x : A) (l : list A) (idx : list nat) :
  nth_error l i = Some x -> select f l (idx ++ [i]) = select f l idx ++ [f x].
Proof.
  intros H. unfold select. rewrite flat_map_app. cbn. rewrite H. reflexivity.
Qed.

Lemma tally_two {A} (p : A -> bool) (i j : nat) (x y : A) (l : list A) :
  i <> j -> nth_error l i = Some x -> nth_error l j = Some y ->
  p x = true -> p y = true -> (2 <= tally p l)%nat.
Proof.
  unfold tally. revert i j.
  induction l as [|z l IH]; intros [|i] [|j] Hij Hi Hj Hx Hy; cbn in *;
    try discriminate; try congruence.
  - inversion Hi; subst. rewrite Hx. cbn.
    pose proof (tally_pos p j y l Hj Hy). unfold tally in *. lia.
  - inversion Hj; subst. rewrite Hy. cbn.
    pose proof (tally_pos p i x l Hi Hx). unfold tally in *. lia.
  - assert (i <> j) by congruence.
    specialize (IH i j H Hi Hj Hx Hy). destruct (p z); cbn; lia.
Qed.

Section Pool.

Variable unicodeFold : Z -> Z.
Variable conf : Config.
Variable icon : string.
Variable ds : list (World * string).

Local Abbreviation step := (step unicodeFold conf icon).
Local Abbreviation runSchedule := (runSchedule unicodeFold conf icon).
Local Abbreviation onMessage := (onMessage unicodeFold conf icon).
Local Abbreviation deliver := (deliver unicodeFold conf icon).
Local Abbreviation standing := (standing unicodeFold conf icon).
Local Abbreviation serialized := (serialized unicodeFold conf icon ds).
Local Abbreviation before :=
  (fun fin => fst (deliver (select (fun d => d) ds fin) zeroTime)).

(** A thread outside the critical section stands the same whatever
    [lastDetected] is. *)
Lemma standing_calm (v ld v' ld' : Time) (t : Thread) :
  inCritical t = false -> standing v ld t -> standing v' ld' t.
Proof.
  unfold inCritical, Serial.standing. destruct (pc t); cbn; auto; discriminate.
Qed.

(** While thread [i] is in the critical section the others are not. *)
Lemma others_calm (st : Shared) (i j : nat) (t tj : Thread) :
  tally inCritical (threads st) = (if locked st then 1 else 0)%nat ->
  nth_error (threads st) i = Some t -> inCritical t = true ->
  j <> i -> nth_error (threads st) j = Some tj -> inCritical tj = false.
Proof.
  intros Hm Hi Hc Hji Hj. destruct (inCritical tj) eqn:E; [|reflexivity].
  pose proof (tally_two inCritical j i tj t _ Hji Hj Hi E Hc).
  destruct (locked st); lia.
Qed.

(** A move of thread [i] that does not return. *)
Lemma serialized_move (st : Shared) (fin : list nat) (i : nat) (t t' : Thread)
    (ld' : Time) (lk' : bool) :
  serialized st fin ->
  nth_error (threads st) i = Some t ->
  ~ In i fin ->
  world t' = world t -> payload t' = payload t ->
  tally inCritical (update i t' (threads st)) = (if lk' then 1 else 0)%nat ->
  standing (before fin) ld' t' ->
  (forall j tj, j <> i -> nth_error (threads st) j = Some tj -> ~ In j fin ->
     standing (before fin) ld' tj) ->
  (lk' = false -> ld' = before fin) ->
  serialized (mkShared ld' lk' (update i t' (threads st))) fin.
Proof.
  intros [Hnd [Hlen [Hds [Hfin [Htr [Hst [Hm Hfree]]]]]]] Hi Hnin Hw Hp Hm' Ht' Hothers Hfree'.
  unfold Serial.serialized. cbn [threads locked Mutex.lastDetected].
  split; [exact Hnd|]. split; [rewrite length_update; exact Hlen|].
  split.
  { intros j tj Hj. destruct (Nat.eq_dec j i) as [E|E].
    - subst j. rewrite (nth_error_update_eq i t' t _ Hi) in Hj. inversion Hj; subst.
      rewrite Hw, Hp. apply Hds. exact Hi.
    - rewrite nth_error_update_neq in Hj by exact E. apply Hds. exact Hj. }
  split.
  { intros j Hj. assert (E : j <> i) by (intros E; subst; contradiction).
    rewrite nth_error_update_neq by exact E. apply Hfin. exact Hj. }
  split; [rewrite select_update by exact Hnin; exact Htr|].
  split.
  { intros j tj Hj Hjn. destruct (Nat.eq_dec j i) as [E|E].
    - subst j. rewrite (nth_error_update_eq i t' t _ Hi) in Hj. inversion Hj; subst.
      exact Ht'.
    - rewrite nth_error_update_neq in Hj by exact E. apply (Hothers j); assumption. }
  split; [exact Hm'|exact Hfree'].
Qed.

(** The return of thread [i], which takes its place after [fin]. *)
Lemma serialized_return (st : Shared) (fin : list nat) (i : nat) (t t' : Thread)
    (ld' : Time) (lk' : bool) :
  serialized st fin ->
  nth_error (threads st) i = Some t ->
  ~ In i fin ->
  world t' = world t -> payload t' = payload t -> pc t' = Done ->
  tally inCritical (update i t' (threads st)) = (if lk' then 1 else 0)%nat ->
  (ld', trace t') = onMessage (world t) (payload t) (before fin) \/
  (fst (onMessage (world t) (payload t) (before fin)) = before fin
   /\ trace t' = snd (onMessage (world t) (payload t) (before fin))
   /\ ld' = Mutex.lastDetected st /\ lk' = locked st) ->
  (forall j tj, j <> i -> nth_error (threads st) j = Some tj -> ~ In j fin ->
     standing (fst (onMessage (world t) (payload t) (before fin))) ld' tj) ->
  serialized (mkShared ld' lk' (update i t' (threads st))) (fin ++ [i]).
Proof.
  intros [Hnd [Hlen [Hds [Hfin [Htr [Hst [Hm Hfree]]]]]]] Hi Hnin Hw Hp Hpc Hm' Hres Hothers.
  assert (Hsel : select (fun d => d) ds (fin ++ [i])
                 = select (fun d => d) ds fin ++ [(world t, payload t)]).
  { apply (select_snoc (fun d => d)). apply Hds. exact Hi. }
  assert (Hrun : deliver (select (fun d => d) ds (fin ++ [i])) zeroTime
                 = (fst (onMessage (world t) (payload t) (before fin)),
                    snd (deliver (select (fun d => d) ds fin) zeroTime)
                    ++ [snd (onMessage (world t) (payload t) (before fin))])).
  { rewrite Hsel, Sequence.deliver_app, Sequence.deliver_cons. reflexivity. }
  assert (Htrace : trace t' = snd (onMessage (world t) (payload t) (before fin))).
  { destruct Hres as [H|[_ [H _]]]; [rewrite <- H; reflexivity|exact H]. }
  unfold Serial.serialized. cbn [threads locked Mutex.lastDetected].
  rewrite Hrun. cbn [fst snd].
  split.
  { apply NoDup_app; [exact Hnd|constructor; [intros []|constructor]|].
    intros x Hx [E|[]]. subst. contradiction. }
  split; [rewrite length_update; exact Hlen|].
  split.
  { intros j tj Hj. destruct (Nat.eq_dec j i) as [E|E].
    - subst j. rewrite (nth_error_update_eq i t' t _ Hi) in Hj. inversion Hj; subst.
      rewrite Hw, Hp. apply Hds. exact Hi.
    - rewrite nth_error_update_neq in Hj by exact E. apply Hds. exact Hj. }
  split.
  { intros j Hj. apply in_app_or in Hj. destruct Hj as [Hj|[Hj|[]]].
    - assert (E : j <> i) by (intros E; subst; contradiction).
      rewrite nth_error_update_neq by exact E. apply Hfin. exact Hj.
    - subst j. exists t'. split; [apply (nth_error_update_eq i t' t _ Hi)|exact Hpc]. }
  split.
  { rewrite (select_snoc trace i t') by (apply (nth_error_update_eq i t' t _ Hi)).
    rewrite select_update by exact Hnin. rewrite Htr, Htrace. reflexivity. }
  split.
  { intros j tj Hj Hjn. destruct (Nat.eq_dec j i) as [E|E].
    - subst j. exfalso. apply Hjn. apply in_or_app. right. left. reflexivity.
    - rewrite nth_error_update_neq in Hj by exact E. apply (Hothers j); auto.
      intros Hin. apply Hjn. apply in_or_app. left. exact Hin. }
  split; [exact Hm'|].
  intros Hlk. destruct Hres as [H|[Hv [_ [Hld Hlk']]]].
  - rewrite <- H. reflexivity.
  - subst. rewrite Hv. apply Hfree. exact Hlk.
Qed.

Lemma critical_locked (st : Shared) (i : nat) (t : Thread) :
  tally inCritical (threads st) = (if locked st then 1 else 0)%nat ->
  nth_error (threads st) i = Some t -> inCritical t = true -> locked st = true.
Proof.
  intros Hm Hi Hc. pose proof (tally_pos inCritical i t _ Hi Hc).
  destruct (locked st); [reflexivity|lia].
Qed.

Lemma serialized_step (i : nat) (st : Shared) (fin : list nat) :
  serialized st fin -> exists fin', serialized (step i st) fin'.
Proof.
  intros HS. pose proof HS as [Hnd [Hlen [Hds [Hfin [Htr [Hst [Hm Hfree]]]]]]].
  pose proof (Exclusion.held_step unicodeFold conf icon i st Hm) as Hm'.
  unfold Mutex.step in *.
  destruct (nth_error (threads st) i) as [t|] eqn:Hi; [|exists fin; exact HS].
  destruct (in_dec Nat.eq_dec i fin) as [Hin|Hnin].
  { exists fin. destruct (Hfin i Hin) as [t0 [H0 Hd]].
    rewrite Hi in H0. inversion H0; subst. unfold move. rewrite Hd. exact HS. }
  pose proof (Hst i t Hi Hnin) as Hstand.
  pose proof (others_calm st i) as Hcalm.
  pose proof (critical_locked st i t Hm Hi) as Hlocked.
  unfold inCritical in Hlocked.
  unfold Serial.standing in Hstand. unfold move in *.
  destruct (pc t) eqn:Hpc; cbn [critical] in Hlocked.
  - (* Received *)
    destruct (Fold.EqualFold unicodeFold (payload t) (TargetMAC conf)) eqn:E;
      cbn [threads locked] in Hm'.
    + exists fin. apply serialized_move with (t := t); auto;
      try (intros j tj ? ? ?; apply (Hst j); assumption).
      unfold Serial.standing. cbn [goto pc trace payload]. rewrite Hstand. auto.
    + exists (fin ++ [i]). apply serialized_return with (t := t); auto.
      * right. rewrite onMessage_other by exact E. cbn [goto trace fst snd].
        rewrite Hstand. auto.
      * intros j tj Hj Hnj Hjn. rewrite onMessage_other by exact E. cbn [fst].
        apply (Hst j); assumption.
  - (* WantLock *)
    destruct Hstand as [Htrace Hmatch].
    destruct (locked st) eqn:Hl; [exists fin; exact HS|].
    cbn [threads locked] in Hm'.
    exists fin. apply serialized_move with (t := t); auto;
      try (intros j tj ? ? ?; apply (Hst j); assumption).
    unfold Serial.standing. cbn [goto pc trace payload]. rewrite app_nil_r. auto.
  - (* Holding *)
    destruct Hstand as [Htrace [Hmatch Hld]].
    exists fin.
    destruct (DetectionTimeout conf <=? Since (sinceClock (world t)) (Mutex.lastDetected st))
      eqn:L; cbn [threads locked] in Hm';
      (apply serialized_move with (t := t); auto;
       try (intros j tj ? ? ?; apply (Hst j); assumption);
       unfold Serial.standing; cbn [goto pc trace payload world];
       rewrite app_nil_r, <- Hld; auto).
  - (* Accepting *)
    destruct Hstand as [Htrace [Hmatch [Hld Hpass]]].
    cbn [threads locked] in Hm'.
    exists fin. apply serialized_move with (t := t); auto;
      try (intros j tj ? ? ?; apply (Hst j); assumption).
    + unfold Serial.standing. cbn [goto pc trace payload world]. rewrite app_nil_r. auto.
    + intros j tj Hj Hnj Hjn.
      apply standing_calm with (v := before fin) (ld := Mutex.lastDetected st).
      * apply (Hcalm j t tj Hm Hi); auto. unfold inCritical. rewrite Hpc. reflexivity.
      * apply (Hst j); assumption.
    + intros Hl. rewrite Hlocked in Hl by reflexivity. discriminate.
  - (* Alerting *)
    destruct Hstand as [Htrace [Hmatch [Hpass Hld]]].
    cbn [threads locked] in Hm'.
    exists fin. apply serialized_move with (t := t); auto;
      try (intros j tj ? ? ?; apply (Hst j); assumption).
    unfold Serial.standing. cbn [goto pc trace payload world].
    rewrite onMessage_accept by (auto; apply Z.leb_le; exact Hpass).
    rewrite Htrace, Hld. reflexivity.
  - (* Ignoring *)
    destruct Hstand as [Htrace [Hmatch [Hld Hpass]]].
    cbn [threads locked] in Hm'.
    exists fin. apply serialized_move with (t := t); auto;
      try (intros j tj ? ? ?; apply (Hst j); assumption).
    unfold Serial.standing. cbn [goto pc trace payload world].
    rewrite onMessage_ignore by (auto; apply Z.leb_gt; exact Hpass).
    rewrite Htrace, Hld. reflexivity.
  - (* Leaving *)
    cbn [threads locked] in Hm'.
    exists (fin ++ [i]). apply serialized_return with (t := t); auto.
    + left. cbn [goto trace]. rewrite app_nil_r. exact Hstand.
    + intros j tj Hj Hnj Hjn.
      apply standing_calm with (v := before fin) (ld := Mutex.lastDetected st).
      * apply (Hcalm j t tj Hm Hi); auto. unfold inCritical. rewrite Hpc. reflexivity.
      * apply (Hst j); assumption.
  - (* Done *)
    contradiction.
Qed.

Lemma serialized_runSchedule (sched : list nat) :
  forall st fin, serialized st fin ->
  exists fin', serialized (runSchedule sched st) fin'.
Proof.
  induction sched as [|i sched IH]; intros st fin H; cbn [Mutex.runSchedule].
  - exists fin. exact H.
  - destruct (serialized_step i st fin H) as [fin' H']. apply (IH _ fin' H').
Qed.

Lemma serialized_spawn : serialized (spawn ds) [].
Proof.
  unfold Serial.serialized, spawn. cbn [threads locked Mutex.lastDetected select flat_map].
  split; [constructor|]. split; [apply length_map|].
  split.
  { intros i t Hi. rewrite nth_error_map in Hi.
    destruct (nth_error ds i) as [[w p]|]; [|discriminate].
    inversion Hi; subst. reflexivity. }
  split; [intros i []|]. split; [reflexivity|].
  split.
  { intros i t Hi _. rewrite nth_error_map in Hi.
    destruct (nth_error ds i) as [d|]; [|discriminate].
    inversion Hi; subst. reflexivity. }
  split; [|reflexivity].
  apply tally_zero. induction ds as [|d l IH]; cbn; constructor; auto.
Qed.

End Pool.

(** X14. The callbacks are serializable. Under every schedule, once all
    callbacks have returned, there is an order of the deliveries, each
    taken once, such that the final [lastDetected] and the trace of every
    callback are those of delivering the messages one after the other in
    that order. *)
Theorem callbacks_serialize (unicodeFold : Z -> Z) (conf : Config) (icon : string)
    (ds : list (World * string)) (sched : list nat) :
  let st := runSchedule unicodeFold conf icon sched (spawn ds) in
  allDone st = true ->
  exists order : list nat,
    Permutation order (seq 0 (List.length ds))
    /\ Mutex.lastDetected st
       = fst (deliver unicodeFold conf icon (select (fun d => d) ds order) zeroTime)
    /\ select trace (threads st) order
       = snd (deliver unicodeFold conf icon (select (fun d => d) ds order) zeroTime).
Proof.
  intros st Hdone.
  destruct (serialized_runSchedule unicodeFold conf icon ds sched (spawn ds) []
              (serialized_spawn unicodeFold conf icon ds))
    as [fin [Hnd [Hlen [Hds [Hfin [Htr [Hst [Hm Hfree]]]]]]]].
  fold st in Hlen, Hds, Hfin, Htr, Hst, Hm, Hfree.
  exists fin.
  assert (Hall : forall i, In i fin <-> In i (seq 0 (List.length ds))).
  { intros i. rewrite in_seq. split.
    - intros Hi. destruct (Hfin i Hi) as [t [Ht _]].
      assert (i < List.length (threads st))%nat by (apply nth_error_Some; congruence).
      lia.
    - intros [_ Hi]. cbn in Hi. rewrite <- Hlen in Hi.
      destruct (nth_error (threads st) i) as [t|] eqn:Ht;
        [|apply nth_error_None in Ht; lia].
      destruct (in_dec Nat.eq_dec i fin) as [Hin|Hnin]; [exact Hin|].
      exfalso. pose proof (Hst i t Ht Hnin) as Hs.
      unfold allDone in Hdone. rewrite forallb_forall in Hdone.
      specialize (Hdone t (nth_error_In _ _ Ht)). unfold finished in Hdone.
      unfold Serial.standing in Hs. destruct (pc t); try discriminate. exact Hs. }
  split; [apply NoDup_Permutation; [exact Hnd|apply seq_NoDup|exact Hall]|].
  split; [|exact Htr].
  apply Hfree.
  destruct (locked st) eqn:Hl; [exfalso|reflexivity].
  destruct (tally_pick inCritical (threads st) ltac:(lia)) as [i [t [Hi Ht]]].
  unfold allDone in Hdone. rewrite forallb_forall in Hdone.
  specialize (Hdone t (nth_error_In _ _ Hi)).
  unfold finished in Hdone. unfold inCritical in Ht. destruct (pc t); discriminate.
Qed.

Lemma callbacks_serialize_witness :
  allDone (runSchedule Sample.noFold Sample.conf Sample.icon
             (Fixtures.roundRobinDown 40 4) (spawn Sample.sightings)) = true
  /\ exists order : list nat,
       Permutation order (seq 0 (List.length Sample.sightings))
       /\ Mutex.lastDetected (runSchedule Sample.noFold Sample.conf Sample.icon
                                (Fixtures.roundRobinDown 40 4) (spawn Sample.sightings))
          = fst (deliver Sample.noFold Sample.conf Sample.icon
                   (select (fun d => d) Sample.sightings order) zeroTime)
       /\ select trace
            (threads (runSchedule Sample.noFold Sample.conf Sample.icon
                        (Fixtures.roundRobinDown 40 4) (spawn Sample.sightings))) order
          = snd (deliver Sample.noFold Sample.conf Sample.icon
                   (select (fun d => d) Sample.sightings order) zeroTime).
Proof.
  split; [vm_compute; reflexivity|].
  apply (callbacks_serialize Sample.noFold Sample.conf Sample.icon Sample.sightings
           (Fixtures.roundRobinDown 40 4)).
  vm_compute; reflexivity.
Defined.

End SerialFacts.
